(** * Xe-Bot front end: the asynchronous job monitor

    A shallow embedding of the two pieces of the React front end that
    track a remote paper-to-animation job:

    - [pollJobUntilComplete] of [frontend/src/services/api.ts], the
      polling engine with its attempt budget and its tolerance for
      consecutive network errors;
    - [handleProgress] and the surrounding [handleSelectPaper] of the
      application component, which turn each status record of the
      back end into updates of the four displayed processing steps.

    Modelling conventions.
    - JavaScript strings are [string]; [toLowerCase] is modelled on
      ASCII letters (the stage tokens compared against are ASCII).
    - [a || b] on strings picks [b] when [a] is undefined or empty.
    - [progress] is a natural number (a percentage), rendered in
      decimal inside template literals, as JavaScript renders the
      integers below 10^21; fractional progress is outside the model.
      The rendered text only enters the descriptions of the steps.
    - [setProcessingSteps (steps => f steps)] is React's functional
      update: the updaters are applied in the order they were queued,
      so a sequence of such calls is the composition of the updaters.
    - The event loop is explicit: a pending [setTimeout (poll, d)] is
      the [timer] field of the session, the promise is the [promise]
      field, and the status endpoint is a function from the number of
      the request to what [getJobStatus] does on that request.
    - [pollInterval] and [maxAttempts] are integers; the progress
      callback is a function on the caller's state that returns or
      throws. *)

From Stdlib Require Import ZArith String Ascii List Lia DecimalString.
From Stdlib Require DecimalPos DecimalN.
From Stdlib Require Import Sorted.
From stdpp Require Import base option list.
Import ListNotations.

Local Open Scope string_scope.

(** ** JavaScript string helpers *)

Module Js.

(** [c.toLowerCase()] on one ASCII character. *)
Definition lowerAscii (c : ascii) : ascii :=
  let n := nat_of_ascii c in
  if (65 <=? n)%nat && (n <=? 90)%nat then ascii_of_nat (n + 32) else c.

(** [s.toLowerCase()]. *)
Fixpoint toLowerCase (s : string) : string :=
  match s with
  | EmptyString => EmptyString
  | String c s' => String (lowerAscii c) (toLowerCase s')
  end.

(** [s.includes(pat)]: [pat] occurs in [s] as a contiguous substring. *)
Fixpoint includes (s pat : string) : bool :=
  String.prefix pat s ||
  match s with
  | EmptyString => false
  | String _ s' => includes s' pat
  end.

(** [a || b] where [a] is a string that may be undefined: the empty
    string and [undefined] are both falsy. *)
Definition strOr (a : option string) (b : string) : string :=
  match a with
  | Some EmptyString | None => b
  | Some s => s
  end.

(** [a || b] on an optional number: [undefined] and [0] are falsy. *)
Definition numOr (a : option N) (b : N) : N :=
  match a with
  | Some 0%N | None => b
  | Some n => n
  end.

(** [`${n}`] for a natural number. *)
Definition showN (n : N) : string := NilZero.string_of_uint (N.to_uint n).

End Js.

(** ** Data model *)

(** [interface JobStatus] of [services/api.ts]; the fields that carry
    the payload of a finished job ([result], [videos], [paper],
    [segments], [segments_count]) are kept as one opaque [result]. *)
Module JobStatus.

Inductive Lifecycle := queued | processing | completed | failed.

Record t := mk {
  job_id : string;
  status : Lifecycle;
  stage : option string;
  stage_detail : option string;
  progress : option N;
  result : option string;
  error : option string
}.

End JobStatus.

(** [interface ProcessingStep] of the application component. *)
Module ProcessingStep.

Inductive Status := pending | active | completed | error.

Record t := mk {
  id : string;
  title : string;
  description : string;
  status : Status
}.

Definition Status_eqb (a b : Status) : bool :=
  match a, b with
  | pending, pending | active, active
  | completed, completed | error, error => true
  | _, _ => false
  end.


End ProcessingStep.

Abbreviation Step := ProcessingStep.t.

(** ** The stage mapper of [handleSelectPaper] *)

Module StageMapper.

Import ProcessingStep.

(** The initial value of the [processingSteps] state. *)
Definition initialSteps : list Step :=
  [ mk "fetch" "Fetching Paper" "Downloading..." pending;
    mk "extract" "Extracting" "Analyzing..." pending;
    mk "segment" "Segmenting" "Breaking down..." pending;
    mk "animate" "Animating" "Creating visuals..." pending ].

(** The arrow function mapped over the steps by [updateStep]:
    [s.id === stepId ? {...s, status, description: description || s.description} : s]. *)
Definition updateOne (stepId : string) (st : Status)
    (desc : option string) (s : Step) : Step :=
  if String.eqb (id s) stepId
  then mk (id s) (title s) (Js.strOr desc (description s)) st
  else s.

(** [updateStep(stepId, status, description?)]. *)
Definition updateStep (stepId : string) (st : Status)
    (desc : option string) (steps : list Step) : list Step :=
  updateOne stepId st desc <$> steps.

(** [steps.map(s => ({...s, status: 'completed'}))]. *)
Definition completeOne (s : Step) : Step :=
  mk (id s) (title s) (description s) completed.

Definition markAllCompleted (steps : list Step) : list Step :=
  completeOne <$> steps.

(** [s.status === 'active' ? {...s, status: 'error', description: detail || 'Failed'} : s]. *)
Definition failOne (detail : string) (s : Step) : Step :=
  if Status_eqb (status s) active
  then mk (id s) (title s) (Js.strOr (Some detail) "Failed") error
  else s.

Definition markActiveFailed (detail : string) (steps : list Step) : list Step :=
  failOne detail <$> steps.

(** [const stage = status.stage?.toLowerCase() || '']. *)
Definition stageOf (js : JobStatus.t) : string :=
  Js.strOr (option_map Js.toLowerCase (JobStatus.stage js)) "".

(** [const detail = status.stage_detail || '']. *)
Definition detailOf (js : JobStatus.t) : string :=
  Js.strOr (JobStatus.stage_detail js) "".

(** [const progress = status.progress || 0], on the whole numbers
    the model has for [progress]. *)
Definition progressOf (js : JobStatus.t) : N :=
  Js.numOr (JobStatus.progress js) 0%N.

(** [handleProgress]: the chain of [if]/[else if] on the stage token. *)
Definition handleProgress (js : JobStatus.t) (steps : list Step) : list Step :=
  let stage := stageOf js in
  let detail := detailOf js in
  let progress := progressOf js in
  if String.eqb stage "queued" then
    updateStep "fetch" active (Some "Queued, waiting to start...") steps
  else if String.eqb stage "fetching" || Js.includes stage "fetch" then
    updateStep "fetch" active
      (Some (Js.strOr (Some detail)
               ("Downloading paper... " ++ Js.showN progress ++ "%"))) steps
  else if String.eqb stage "extracting" || Js.includes stage "extract" then
    updateStep "extract" active
      (Some (Js.strOr (Some detail) "Analyzing content..."))
      (updateStep "fetch" completed (Some "Paper downloaded") steps)
  else if String.eqb stage "segmenting" || Js.includes stage "segment" then
    updateStep "segment" active
      (Some (Js.strOr (Some detail) "Breaking into topics..."))
      (updateStep "extract" completed (Some "Introduction extracted")
         (updateStep "fetch" completed None steps))
  else if String.eqb stage "animating" || Js.includes stage "animat" then
    updateStep "animate" active
      (Some (Js.strOr (Some detail)
               ("Rendering animations... " ++ Js.showN progress ++ "%")))
      (updateStep "segment" completed (Some "Segments created")
         (updateStep "extract" completed None
            (updateStep "fetch" completed None steps)))
  else if String.eqb stage "completed" then
    markAllCompleted steps
  else if String.eqb stage "failed" then
    markActiveFailed detail steps
  else steps.

(** What [handleProgress] does to one step: every branch maps a
    function over the steps, so the whole is a map as well
    ([handleProgress_fmap] below). *)
Definition handleProgressOne (js : JobStatus.t) (s : Step) : Step :=
  let stage := stageOf js in
  let detail := detailOf js in
  let progress := progressOf js in
  if String.eqb stage "queued" then
    updateOne "fetch" active (Some "Queued, waiting to start...") s
  else if String.eqb stage "fetching" || Js.includes stage "fetch" then
    updateOne "fetch" active
      (Some (Js.strOr (Some detail)
               ("Downloading paper... " ++ Js.showN progress ++ "%"))) s
  else if String.eqb stage "extracting" || Js.includes stage "extract" then
    updateOne "extract" active
      (Some (Js.strOr (Some detail) "Analyzing content..."))
      (updateOne "fetch" completed (Some "Paper downloaded") s)
  else if String.eqb stage "segmenting" || Js.includes stage "segment" then
    updateOne "segment" active
      (Some (Js.strOr (Some detail) "Breaking into topics..."))
      (updateOne "extract" completed (Some "Introduction extracted")
         (updateOne "fetch" completed None s))
  else if String.eqb stage "animating" || Js.includes stage "animat" then
    updateOne "animate" active
      (Some (Js.strOr (Some detail)
               ("Rendering animations... " ++ Js.showN progress ++ "%")))
      (updateOne "segment" completed (Some "Segments created")
         (updateOne "extract" completed None
            (updateOne "fetch" completed None s)))
  else if String.eqb stage "completed" then completeOne s
  else if String.eqb stage "failed" then failOne detail s
  else s.

(** The step a snapshot puts in progress: the identifier passed to
    the [updateStep(.., 'active', ..)] of the branch its stage token
    selects, if that branch has one. *)
Definition activatedBy (js : JobStatus.t) : option string :=
  let stage := stageOf js in
  if String.eqb stage "queued" then Some "fetch"
  else if String.eqb stage "fetching" || Js.includes stage "fetch" then Some "fetch"
  else if String.eqb stage "extracting" || Js.includes stage "extract" then Some "extract"
  else if String.eqb stage "segmenting" || Js.includes stage "segment" then Some "segment"
  else if String.eqb stage "animating" || Js.includes stage "animat" then Some "animate"
  else None.


(** The number of steps shown as in progress. *)
Definition countActive (steps : list Step) : nat :=
  length (List.filter (fun s => Status_eqb (status s) active) steps).

End StageMapper.

(** ** The polling engine: [pollJobUntilComplete] of [services/api.ts] *)

Module Poll.

(** A value caught by [catch (err)]: an [Error] with its message, or
    anything else. *)
Inductive Thrown :=
| errorObject (message : string)
| otherValue.

(** [err instanceof Error ? err.message : 'Unknown error']. *)
Definition messageOf (err : Thrown) : string :=
  match err with
  | errorObject m => m
  | otherValue => "Unknown error"
  end.

(** What one [await getJobStatus(jobId)] does: it returns the status
    record of the response, or throws (network error, time-out of the
    request, HTTP error status). *)
Inductive Fetch :=
| fetched (js : JobStatus.t)
| failedWith (err : Thrown).

(** How the promise returned by [pollJobUntilComplete] is settled. *)
Inductive Outcome :=
| resolved (js : JobStatus.t)
| rejected (message : string).

(** What a session does, in the order it does it. *)
Inductive Event :=
| evRequest (attempt : nat)
| evProgress (js : JobStatus.t)
| evWarn (attempt errors : nat)
| evSetTimeout (delay : Z)
| evSettle (o : Outcome).

Definition isSettle (e : Event) : bool :=
  match e with evSettle _ => true | _ => false end.

Definition isRequest (e : Event) : bool :=
  match e with evRequest _ => true | _ => false end.

Definition isProgress (e : Event) : bool :=
  match e with evProgress _ => true | _ => false end.

(** [const maxConsecutiveErrors = 10]. *)
Definition maxConsecutiveErrors : nat := 10.

(** The messages of the two rejections that are not a job failure. *)
Definition timedOutMessage : string := "Job timed out after 30 minutes".

Definition connectionLostMessage (err : Thrown) : string :=
  "Connection lost after " ++ Js.showN (N.of_nat maxConsecutiveErrors)
    ++ " retries: " ++ messageOf err.

Section Session.

(** The caller's side: the state the progress callback works on,
    and the optional callback itself, which returns normally or
    throws. *)
Context {S : Type}.
Variable onProgress : option (JobStatus.t -> S -> S * option Thrown).
Variable pollInterval : Z.
Variable maxAttempts : Z.

(** The status endpoint: what the [n]-th request of the session
    does, the first request being number 1. *)
Variable getJobStatus : nat -> Fetch.

(** The closure of [pollJobUntilComplete]: its two counters, the
    caller's state, the pending [setTimeout], the promise. *)
Record Session := mkSession {
  attempts : nat;
  consecutiveErrors : nat;
  caller : S;
  timer : option Z;
  promise : option Outcome;
  log : list Event
}.

Definition emit (e : Event) (x : Session) : Session :=
  mkSession (attempts x) (consecutiveErrors x) (caller x)
    (timer x) (promise x) (log x ++ [e]).

(** [resolve(..)] and [reject(..)]: the first call settles the
    promise, a call on a settled promise has no effect. *)
Definition settle (o : Outcome) (x : Session) : Session :=
  match promise x with
  | Some _ => x
  | None =>
      mkSession (attempts x) (consecutiveErrors x) (caller x)
        (timer x) (Some o) (log x ++ [evSettle o])
  end.

(** [setTimeout(poll, delay)]. *)
Definition setTimeout (delay : Z) (x : Session) : Session :=
  mkSession (attempts x) (consecutiveErrors x) (caller x)
    (Some delay) (promise x) (log x ++ [evSetTimeout delay]).

(** [onProgress?.(status)]. *)
Definition callProgress (js : JobStatus.t) (x : Session)
    : Session * option Thrown :=
  match onProgress with
  | None => (x, None)
  | Some f =>
      let '(c, r) := f js (caller x) in
      (mkSession (attempts x) (consecutiveErrors x) c
         (timer x) (promise x) (log x ++ [evProgress js]), r)
  end.

(** The [catch (err)] block of [poll]. *)
Definition onCatch (err : Thrown) (x : Session) : Session :=
  let x := mkSession (attempts x) (Datatypes.S (consecutiveErrors x))
             (caller x) (timer x) (promise x) (log x) in
  if (consecutiveErrors x <? maxConsecutiveErrors)%nat then
    setTimeout (pollInterval * 2)
      (emit (evWarn (attempts x) (consecutiveErrors x)) x)
  else
    settle (rejected (connectionLostMessage err)) x.

(** One run of [poll]: the timer that started it (if any) is spent. *)
Definition poll (x : Session) : Session :=
  let x := mkSession (Datatypes.S (attempts x)) (consecutiveErrors x)
             (caller x) None (promise x)
             (log x ++ [evRequest (Datatypes.S (attempts x))]) in
  match getJobStatus (attempts x) with
  | failedWith err => onCatch err x
  | fetched status =>
      let x := mkSession (attempts x) 0 (caller x)
                 (timer x) (promise x) (log x) in
      match callProgress status x with
      | (x, Some err) => onCatch err x
      | (x, None) =>
          match JobStatus.status status with
          | JobStatus.completed => settle (resolved status) x
          | JobStatus.failed =>
              settle (rejected (Js.strOr (JobStatus.error status) "Job failed")) x
          | _ =>
              if (maxAttempts <=? Z.of_nat (attempts x))%Z then
                settle (rejected timedOutMessage) x
              else setTimeout pollInterval x
          end
      end
  end.

(** The event loop: as long as a [setTimeout(poll, ..)] is pending
    it fires and runs [poll]; [fuel] bounds the number of timers
    fired. *)
Fixpoint runTimers (fuel : nat) (x : Session) : Session :=
  match fuel with
  | O => x
  | Datatypes.S fuel' =>
      match timer x with
      | None => x
      | Some _ => runTimers fuel' (poll x)
      end
  end.

(** The executor of the promise: both counters at 0, then [poll()]. *)
Definition start (c : S) : Session := mkSession 0 0 c None None [].

Definition pollJobUntilComplete (fuel : nat) (c : S) : Session :=
  runTimers fuel (poll (start c)).

End Session.

Arguments Session : clear implicits.

(** A progress callback that always returns. *)
Definition returning {S : Type} (g : JobStatus.t -> S -> S)
    (js : JobStatus.t) (c : S) : S * option Thrown :=
  (g js c, None).

(** The caller's state after such a callback, if there is one, ran. *)
Definition progressed {S : Type} (g : option (JobStatus.t -> S -> S))
    (js : JobStatus.t) (c : S) : S :=
  match g with
  | Some f => f js c
  | None => c
  end.

(** The number of events of a kind in a log. *)
Definition count (p : Event -> bool) (l : list Event) : nat :=
  length (List.filter p l).

(** A bound on the number of timers that can still fire: while the
    attempt budget is not used up an answered request may go on
    polling, afterwards only failed requests do. *)
Definition budget {S : Type} (maxAttempts : Z) (x : Session S) : nat :=
  if (Datatypes.S (attempts x) <? Z.to_nat maxAttempts)%nat
  then (Z.to_nat maxAttempts - 1 - attempts x + maxConsecutiveErrors)%nat
  else (maxConsecutiveErrors - consecutiveErrors x)%nat.

(** The promise is settled at most once, and when it is, settling it
    is the last thing the session did and no timer is left. *)
Definition settledLast {S : Type} (x : Session S) : Prop :=
  match promise x with
  | None => Forall (fun e => isSettle e = false) (log x)
  | Some o =>
      timer x = None /\
      exists pre, log x = (pre ++ [evSettle o])%list /\
                  Forall (fun e => isSettle e = false) pre
  end.

(** What holds of a session at every moment: the above, one request
    per attempt, and a time-out only right after a request that was
    answered. *)
Definition invariant {S : Type} (getJobStatus : nat -> Fetch)
    (x : Session S) : Prop :=
  settledLast x /\
  count isRequest (log x) = attempts x /\
  (promise x = Some (rejected timedOutMessage) ->
   exists js, getJobStatus (attempts x) = fetched js).

(** The progress callback saw no record of a completed job while the
    promise is not settled, and a promise that is settled after such a
    record was seen resolved with it. *)
Definition completedSeen {S : Type} (x : Session S) : Prop :=
  match promise x with
  | None =>
      forall js, In (evProgress js) (log x) ->
                 JobStatus.status js <> JobStatus.completed
  | Some o =>
      forall js, In (evProgress js) (log x) ->
                 JobStatus.status js = JobStatus.completed ->
                 o = resolved js
  end.

End Poll.

(** ** [handleSelectPaper]: the stage mapper driven by the polling engine *)

Module App.

Import ProcessingStep StageMapper.

(** The updater of the first [setProcessingSteps] of [handleSelectPaper]. *)
Definition resetOne (s : Step) : Step :=
  mk (id s) (title s)
     (if String.eqb (id s) "fetch" then "Starting..." else description s)
     pending.

(** The updater of the [catch] block of [handleSelectPaper]:
    [s.status === 'active' || s.status === 'pending' ? {...s, status: 'error'} : s]. *)
Definition abortOne (s : Step) : Step :=
  if Status_eqb (status s) active || Status_eqb (status s) pending
  then mk (id s) (title s) (description s) error
  else s.

Definition markUnfinishedFailed (steps : list Step) : list Step :=
  abortOne <$> steps.

(** [handleProgress] as the progress callback of a session: it
    queues its updaters and returns. *)
Definition progressCallback
    : JobStatus.t -> list Step -> list Step * option Poll.Thrown :=
  Poll.returning handleProgress.

(** What [handleSelectPaper] does with the steps once the promise of
    [pollJobUntilComplete] is settled: the statement after the
    [await] when it resolved, the [catch] block when it rejected. *)
Definition afterPoll (o : Poll.Outcome) (steps : list Step) : list Step :=
  match o with
  | Poll.resolved _ => markAllCompleted steps
  | Poll.rejected _ => markUnfinishedFailed steps
  end.

(** [err instanceof Error ? err.message : 'Processing failed']. *)
Definition processingError (err : Poll.Thrown) : string :=
  match err with
  | Poll.errorObject m => m
  | Poll.otherValue => "Processing failed"
  end.

(** [handleSelectPaper]: [startAsyncProcess] either returns a job
    identifier or throws; the session polls every 3000 ms with the
    default budget of 600 attempts. The result is the value of
    [processingSteps] and of [error] once everything queued has run. *)
Definition handleSelectPaper (startAsyncProcess : string + Poll.Thrown)
    (getJobStatus : nat -> Poll.Fetch) (fuel : nat) (steps : list Step)
    : list Step * option string :=
  let steps := resetOne <$> steps in
  let steps := updateStep "fetch" active (Some "Starting job...") steps in
  match startAsyncProcess with
  | inr err => (markUnfinishedFailed steps, Some (processingError err))
  | inl job_id =>
      let steps :=
        updateStep "fetch" active (Some "Job started, fetching paper...") steps in
      let x := Poll.pollJobUntilComplete (Some progressCallback)
                 3000 600 getJobStatus fuel steps in
      match Poll.promise x with
      | Some (Poll.resolved js) =>
          (afterPoll (Poll.resolved js) (Poll.caller x), None)
      | Some (Poll.rejected m) =>
          (afterPoll (Poll.rejected m) (Poll.caller x), Some m)
      | None => (Poll.caller x, None)
      end
  end.

(** The session [handleSelectPaper] starts once the job is submitted:
    the call [pollJobUntilComplete(job_id, handleProgress, 3000)] on the
    steps as the two [updateStep] calls before it left them. *)
Definition session (getJobStatus : nat -> Poll.Fetch) (fuel : nat)
    (steps : list Step) : Poll.Session (list Step) :=
  Poll.pollJobUntilComplete (Some progressCallback) 3000 600 getJobStatus fuel
    (updateStep "fetch" active (Some "Job started, fetching paper...")
       (updateStep "fetch" active (Some "Starting job...")
          (resetOne <$> steps))).

End App.

(** ** The read model of [components/ProcessingSteps.tsx] *)

(** The values of the [stepLabels] table. *)
Module StepLabels.

Record t := mk { active : string; completed : string }.

End StepLabels.

Module View.

Import ProcessingStep.

(** [stepLabels], the table from step identifier to its two labels. *)
Definition stepLabels : list (string * StepLabels.t) :=
  [ ("fetch", StepLabels.mk "Fetching Paper" "Paper Fetched");
    ("extract", StepLabels.mk "Extracting Content" "Content Extracted");
    ("segment", StepLabels.mk "Segmenting Topics" "Topics Segmented");
    ("animate", StepLabels.mk "Generating Animations" "Animations Complete") ].

(** [stepLabels[key]]: the entry of an own key of the table. *)
Definition lookupLabels (key : string) : option StepLabels.t :=
  option_map snd (List.find (fun p => String.eqb (fst p) key) stepLabels).

(** [steps.filter(s => s.status === 'completed').length]. *)
Definition completedCount (steps : list Step) : nat :=
  length (List.filter (fun s => Status_eqb (status s) completed) steps).

(** [steps.find(s => s.status === 'active')]. *)
Definition activeStep (steps : list Step) : option Step :=
  List.find (fun s => Status_eqb (status s) active) steps.

(** [steps.some(s => s.status === 'error')]. *)
Definition hasError (steps : list Step) : bool :=
  existsb (fun s => Status_eqb (status s) error) steps.

(** The text at the right of the heading:
    [hasError ? 'Error occurred' : `${completedCount}/${steps.length} complete`]. *)
Definition headerText (steps : list Step) : string :=
  if hasError steps then "Error occurred"
  else Js.showN (N.of_nat (completedCount steps)) ++ "/"
         ++ Js.showN (N.of_nat (length steps)) ++ " complete".

(** The label of the status banner, shown when there is an active step:
    [stepLabels[activeStep.id]?.active || activeStep.title]. *)
Definition bannerLabel (steps : list Step) : option string :=
  option_map
    (fun s => Js.strOr (option_map StepLabels.active (lookupLabels (id s)))
                (title s))
    (activeStep steps).

End View.

(** ** The videos of a finished job, in [handleSelectPaper] and in the
    completed view *)

(** An element of [JobStatus.videos]. *)
Module JobVideo.

Record t := mk {
  video_url : string;
  download_url : string;
  type : string;
  topic : option string;
  segment_index : option N
}.

End JobVideo.

(** The fields of [interface VideoInfo] that [handleSelectPaper] sets. *)
Module VideoInfo.

Record t := mk {
  video_id : string;
  video_url : string;
  download_url : string;
  file_path : string;
  file_size : N;
  animation_type : option string;
  paper_title : option string;
  paper_arxiv_id : option string
}.

End VideoInfo.

Module Videos.

(** The arrow function of [jobVideos.map((v, i) => ..)]; [paper] is
    the title and the arXiv identifier of [finalStatus.paper], when
    there is one. *)
Definition toVideoInfo (job_id : string) (paper : option (string * string))
    (i : nat) (v : JobVideo.t) : VideoInfo.t :=
  VideoInfo.mk
    ("job_" ++ job_id ++ "_" ++ Js.showN (N.of_nat i))
    (JobVideo.video_url v)
    (JobVideo.download_url v)
    ""
    0%N
    (Some (if String.eqb (JobVideo.type v) "full" then "Full Introduction"
           else Js.strOr (JobVideo.topic v)
                  ("Segment " ++ Js.showN (N.of_nat (i + 1)))))
    (option_map fst paper)
    (option_map snd paper).

(** [(finalStatus.videos || []).map(..)]. *)
Definition toVideoInfos (job_id : string) (paper : option (string * string))
    (videos : option (list JobVideo.t)) : list VideoInfo.t :=
  imap (toVideoInfo job_id paper) (default [] videos).

(** The title passed to the player of the video at index [i]:
    [video.animation_type || segments[i]?.topic || `Animation ${i + 1}`],
    [segments] being given by their topics. *)
Definition videoTitle (segments : list string) (i : nat)
    (video : VideoInfo.t) : string :=
  Js.strOr (VideoInfo.animation_type video)
    (Js.strOr (segments !! i) ("Animation " ++ Js.showN (N.of_nat (i + 1)))).

End Videos.

(** ** The test for an arXiv identifier in [handleSearch] *)

(** Regular expressions over characters, with the matching of a whole
    string by derivatives. The pattern of [handleSearch] has neither
    groups that are referred to nor look-around, so whether
    [/^..$/.test(query)] holds is membership of the whole query in the
    language of the pattern. *)
Module Regex.

Inductive t :=
| void
| eps
| chr (p : ascii -> bool)
| cat (r1 r2 : t)
| alt (r1 r2 : t)
| star (r : t).

Fixpoint nullable (r : t) : bool :=
  match r with
  | void => false
  | eps => true
  | chr _ => false
  | cat r1 r2 => nullable r1 && nullable r2
  | alt r1 r2 => nullable r1 || nullable r2
  | star _ => true
  end.

Fixpoint deriv (c : ascii) (r : t) : t :=
  match r with
  | void => void
  | eps => void
  | chr p => if p c then eps else void
  | cat r1 r2 =>
      if nullable r1 then alt (cat (deriv c r1) r2) (deriv c r2)
      else cat (deriv c r1) r2
  | alt r1 r2 => alt (deriv c r1) (deriv c r2)
  | star r1 => cat (deriv c r1) (star r1)
  end.

(** [/^r$/.test(s)]. *)
Fixpoint test (r : t) (s : string) : bool :=
  match s with
  | EmptyString => nullable r
  | String c s' => test (deriv c r) s'
  end.

(** The strings of the language of a pattern. *)
Inductive Matches : t -> string -> Prop :=
| matchesEps : Matches eps ""
| matchesChr (p : ascii -> bool) (c : ascii) :
    p c = true -> Matches (chr p) (String c "")
| matchesCat (r1 r2 : t) (s1 s2 : string) :
    Matches r1 s1 -> Matches r2 s2 -> Matches (cat r1 r2) (s1 ++ s2)
| matchesAltL (r1 r2 : t) (s : string) :
    Matches r1 s -> Matches (alt r1 r2) s
| matchesAltR (r1 r2 : t) (s : string) :
    Matches r2 s -> Matches (alt r1 r2) s
| matchesStarNil (r : t) : Matches (star r) ""
| matchesStarCons (r : t) (s1 s2 : string) :
    Matches r s1 -> Matches (star r) s2 -> Matches (star r) (s1 ++ s2).

(** [\d]. *)
Definition isDigit (c : ascii) : bool :=
  let n := nat_of_ascii c in (48 <=? n)%nat && (n <=? 57)%nat.

Definition digit : t := chr isDigit.

(** A literal character, as [\.] and [v]. *)
Definition lit (c : ascii) : t := chr (Ascii.eqb c).

(** [r{n}], [r?] and [r+]. *)
Fixpoint times (n : nat) (r : t) : t :=
  match n with
  | O => eps
  | S n' => cat r (times n' r)
  end.

Definition opt (r : t) : t := alt eps r.

Definition plus (r : t) : t := cat r (star r).

(** A string of decimal digits. *)
Fixpoint allDigits (s : string) : bool :=
  match s with
  | EmptyString => true
  | String c s' => isDigit c && allDigits s'
  end.

End Regex.

Module Search.

Import Regex.

(** The pattern [\d{4}\.\d{4,5}(v\d+)?] between [^] and [$]; [\d{4,5}]
    is four digits and an optional fifth. *)
Definition arxivIdPattern : Regex.t :=
  cat (times 4 digit)
    (cat (lit ".")
       (cat (cat (times 4 digit) (opt digit))
          (opt (cat (lit "v") (plus digit))))).

(** [const isArxivId = /^\d{4}\.\d{4,5}(v\d+)?$/.test(query)]. *)
Definition isArxivId (query : string) : bool :=
  Regex.test arxivIdPattern query.

End Search.

(** ** The stored credential of [services/api.ts] *)

Module Api.

(** A request as the back end sees it: the method, the path under
    [API_BASE_URL] and the [Authorization] header, if any. *)
Record Request := mkRequest {
  method : string;
  path : string;
  authorization : option string
}.

(** The client: the [xe_bot_api_key] item of the session storage,
    [None] when [getItem] returns [null], and the requests sent so far. *)
Record Client := mkClient {
  storedApiKey : option string;
  sent : list Request
}.

(** [getStoredApiKey()]. *)
Definition getStoredApiKey (c : Client) : option string := storedApiKey c.

(** [setStoredApiKey(key)]. *)
Definition setStoredApiKey (key : string) (c : Client) : Client :=
  mkClient (Some key) (sent c).

(** [if (apiKey)] and [if (!apiKey)]: [null] and the empty string are
    falsy. *)
Definition truthy (key : option string) : bool :=
  match key with
  | Some EmptyString | None => false
  | Some _ => true
  end.

(** The request interceptor of the [api] instance: the header it
    puts on a request. *)
Definition interceptor (c : Client) : option string :=
  if truthy (getStoredApiKey c)
  then Some ("Bearer " ++ Js.strOr (getStoredApiKey c) "")
  else None.

(** A request through the [api] instance. *)
Definition viaApi (m p : string) (c : Client) : Client :=
  mkClient (storedApiKey c) (sent c ++ [mkRequest m p (interceptor c)]).

(** A request through [axios] itself, which has no interceptor. *)
Definition viaAxios (m p : string) (c : Client) : Client :=
  mkClient (storedApiKey c) (sent c ++ [mkRequest m p None]).

(** [ensureApiKey()]; [create] is what the key endpoint does when it
    is asked: it answers with a key or the request throws. *)
Definition ensureApiKey (create : string + Poll.Thrown) (c : Client)
    : (string + Poll.Thrown) * Client :=
  if truthy (getStoredApiKey c)
  then (inl (Js.strOr (getStoredApiKey c) ""), c)
  else
    let c := viaAxios "POST" "/api/keys/create" c in
    match create with
    | inl key => (inl key, setStoredApiKey key c)
    | inr err => (inr err, c)
    end.

(** [startAsyncProcess(arxivId)]; [generate] is what the job endpoint
    does when it is asked: it answers with a job identifier or the
    request throws. *)
Definition startAsyncProcess (create generate : string + Poll.Thrown)
    (c : Client) : (string + Poll.Thrown) * Client :=
  match ensureApiKey create c with
  | (inr err, c) => (inr err, c)
  | (inl _, c) => (generate, viaApi "POST" "/api/generate" c)
  end.

(** [getJobStatus(jobId)], as far as the client is concerned. *)
Definition getJobStatus (jobId : string) (c : Client) : Client :=
  viaApi "GET" ("/api/jobs/" ++ jobId) c.

End Api.

(** ** The grouping of [components/VideoGallery.tsx] *)

(** The fields of [interface GalleryVideo] that the grouping reads. *)
Module GalleryVideo.

Record t := mk {
  video_id : string;
  paper_title : option string;
  paper_arxiv_id : option string;
  animation_type : option string;
  segment_number : option N
}.

End GalleryVideo.

(** [interface PaperGroup]. *)
Module PaperGroup.

Record t := mk {
  paper_title : string;
  paper_arxiv_id : string;
  full_video : option GalleryVideo.t;
  full_videos : list GalleryVideo.t;
  segments : list GalleryVideo.t
}.

End PaperGroup.

Module Gallery.

(** The search filter lower-cases free text, paper titles and the
    search text, on which [String.prototype.toLowerCase] acts on every
    cased letter and not only on A-Z as [Js.toLowerCase] does. The
    function is therefore a parameter, [toLowerCase], of the filter and
    of the grouping. *)

(** [field?.toLowerCase().includes(q)], falsy when the field is
    undefined. *)
Definition lowerIncludes (toLowerCase : string -> string)
    (field : option string) (q : string) : bool :=
  match field with
  | Some f => Js.includes (toLowerCase f) q
  | None => false
  end.

(** The predicate of [videos.filter(..)]. *)
Definition matchesQuery (toLowerCase : string -> string)
    (searchQuery : string) (v : GalleryVideo.t) : bool :=
  String.eqb searchQuery ""
  || lowerIncludes toLowerCase (GalleryVideo.paper_title v)
       (toLowerCase searchQuery)
  || lowerIncludes toLowerCase (GalleryVideo.animation_type v)
       (toLowerCase searchQuery).

(** [video.paper_arxiv_id || 'unknown']. *)
Definition keyOf (v : GalleryVideo.t) : string :=
  Js.strOr (GalleryVideo.paper_arxiv_id v) "unknown".

(** The group set for a key that is not in the map yet. *)
Definition newGroup (v : GalleryVideo.t) : PaperGroup.t :=
  PaperGroup.mk (Js.strOr (GalleryVideo.paper_title v) "Unknown Paper")
    (keyOf v) None [] [].

(** [groups.has(key)]; the map is the list of its values in insertion
    order, each value carrying its key. *)
Definition hasKey (key : string) (groups : list PaperGroup.t) : bool :=
  existsb (fun g => String.eqb (PaperGroup.paper_arxiv_id g) key) groups.

Definition isMainFullVideo (v : GalleryVideo.t) : bool :=
  let videoName := Js.strOr (Some (GalleryVideo.video_id v)) "" in
  Js.includes (Js.toLowerCase videoName) "fullintroduction"
  || Js.includes (Js.toLowerCase videoName) "full_introduction".

(** [video.animation_type === 'Full Introduction']. *)
Definition isFullIntroduction (v : GalleryVideo.t) : bool :=
  match GalleryVideo.animation_type v with
  | Some a => String.eqb a "Full Introduction"
  | None => false
  end.

(** What the body of [forEach] does to the group of the video. *)
Definition place (v : GalleryVideo.t) (g : PaperGroup.t) : PaperGroup.t :=
  if isFullIntroduction v then
    PaperGroup.mk (PaperGroup.paper_title g) (PaperGroup.paper_arxiv_id g)
      (match PaperGroup.full_video g with
       | None => if isMainFullVideo v then Some v else None
       | Some main => Some main
       end)
      (PaperGroup.full_videos g ++ [v])
      (PaperGroup.segments g)
  else
    PaperGroup.mk (PaperGroup.paper_title g) (PaperGroup.paper_arxiv_id g)
      (PaperGroup.full_video g)
      (PaperGroup.full_videos g)
      (PaperGroup.segments g ++ [v]).

(** The body of [filtered.forEach(video => ..)]. *)
Definition addVideo (groups : list PaperGroup.t) (v : GalleryVideo.t)
    : list PaperGroup.t :=
  let key := keyOf v in
  let groups :=
    if hasKey key groups then groups else (groups ++ [newGroup v])%list in
  (fun g => if String.eqb (PaperGroup.paper_arxiv_id g) key
            then place v g else g) <$> groups.

(** [a.segment_number || 0]. *)
Definition segmentNumber (v : GalleryVideo.t) : N :=
  Js.numOr (GalleryVideo.segment_number v) 0%N.

(** [segments.sort((a, b) => (a.segment_number || 0) - (b.segment_number || 0))]:
    the sort of an array is stable, which on a total order of keys
    fixes its result; it is given here by insertion. *)
Fixpoint insertSegment (v : GalleryVideo.t) (l : list GalleryVideo.t)
    : list GalleryVideo.t :=
  match l with
  | [] => [v]
  | x :: r =>
      if (segmentNumber v <=? segmentNumber x)%N then v :: x :: r
      else x :: insertSegment v r
  end.

Definition sortSegments (l : list GalleryVideo.t) : list GalleryVideo.t :=
  foldr insertSegment [] l.

Definition sortGroup (g : PaperGroup.t) : PaperGroup.t :=
  PaperGroup.mk (PaperGroup.paper_title g) (PaperGroup.paper_arxiv_id g)
    (PaperGroup.full_video g) (PaperGroup.full_videos g)
    (sortSegments (PaperGroup.segments g)).

(** The value of [groupedVideos]. *)
Definition groupedVideos (toLowerCase : string -> string)
    (videos : list GalleryVideo.t) (searchQuery : string)
    : list PaperGroup.t :=
  sortGroup <$> foldl addVideo []
    (List.filter (matchesQuery toLowerCase searchQuery) videos).

(** The videos of a group, and of all groups. *)
Definition members (g : PaperGroup.t) : list GalleryVideo.t :=
  PaperGroup.full_videos g ++ PaperGroup.segments g.

Definition allMembers (groups : list PaperGroup.t) : list GalleryVideo.t :=
  concat (members <$> groups).

(** The key of every video of a group is the key of the group. *)
Definition keyed (groups : list PaperGroup.t) : Prop :=
  Forall (fun g => Forall (fun v => keyOf v = PaperGroup.paper_arxiv_id g)
                     (members g)) groups.

(** The order of the segment numbers, absent numbers counting as 0. *)
Definition byNumber (a b : GalleryVideo.t) : Prop :=
  (segmentNumber a <= segmentNumber b)%N.

(** A group that holds a video, and whose featured video, if it has
    one, is among its full videos and is a main full video. *)
Definition wellFormed (g : PaperGroup.t) : Prop :=
  members g <> [] /\
  forall m, PaperGroup.full_video g = Some m ->
            m ∈ PaperGroup.full_videos g /\ isMainFullVideo m = true.

End Gallery.

(** ** Sample status records, pipeline states and endpoints *)

Module Samples.

Import ProcessingStep.

Definition inStage (stage : string) : JobStatus.t :=
  JobStatus.mk "job-1" JobStatus.processing (Some stage) None None None None.

Definition extracting : JobStatus.t := inStage "extracting".
Definition segmenting : JobStatus.t := inStage "segmenting".

(** A failed job, reported with and without the stage token [failed]. *)
Definition jobFailed : JobStatus.t :=
  JobStatus.mk "job-1" JobStatus.failed (Some "failed") None None None
    (Some "render crashed").

Definition jobFailedNoStage : JobStatus.t :=
  JobStatus.mk "job-1" JobStatus.failed None None None None
    (Some "render crashed").

(** A finished job whose stage token still names the last stage. *)
Definition jobDone : JobStatus.t :=
  JobStatus.mk "job-1" JobStatus.completed (Some "animating") None
    (Some 100%N) (Some "2 videos") None.

(** The steps while the introduction is being extracted. *)
Definition whileExtracting : list Step :=
  [ mk "fetch" "Fetching Paper" "Paper downloaded" completed;
    mk "extract" "Extracting" "Analyzing content..." active;
    mk "segment" "Segmenting" "Breaking down..." pending;
    mk "animate" "Animating" "Creating visuals..." pending ].

Definition alwaysProcessing (n : nat) : Poll.Fetch :=
  Poll.fetched extracting.

Definition alwaysFailing (n : nat) : Poll.Fetch :=
  Poll.failedWith (Poll.errorObject "Network Error").


(** Two answers of a job in progress, then the finished job. *)
Definition doneAtThird (n : nat) : Poll.Fetch :=
  match n with
  | 1 | 2 => Poll.fetched extracting
  | _ => Poll.fetched jobDone
  end.

(** A progress callback that throws on every call. *)
Definition alwaysThrowing (js : JobStatus.t) (steps : list Step)
    : list Step * option Poll.Thrown :=
  (steps, Some (Poll.errorObject "render error")).

(** A session about to send its fourth request. *)
Definition midSession (steps : list Step) : Poll.Session (list Step) :=
  Poll.mkSession 3 0 steps (Some 3000%Z) None [].

End Samples.

(** * Properties *)

(** ** The string helpers *)

Module JsFacts.

Lemma prefix_iff (p s : string) :
  String.prefix p s = true <-> exists post, s = (p ++ post)%string.
Proof.
  revert s. induction p as [|c p IH]; intros [|d s]; cbn.
  - split; [intros _; exists ""%string; reflexivity | reflexivity].
  - split; [intros _; eexists; reflexivity | reflexivity].
  - split; [discriminate | intros [post H]; discriminate H].
  - destruct (Ascii.ascii_dec c d) as [->|Hne]; rewrite ?IH.
    + split; intros [post H]; exists post; congruence.
    + split; [discriminate | intros [post H]; congruence].
Qed.

(** [Js.includes] is the test for a contiguous substring. *)
Lemma includes_iff (s pat : string) :
  Js.includes s pat = true <->
  exists pre post, s = (pre ++ pat ++ post)%string.
Proof.
  induction s as [|c s IH]; cbn [Js.includes].
  - rewrite orb_false_r, prefix_iff. split.
    + intros [post H]. exists "", post. exact H.
    + intros (pre & post & H). destruct pre as [|d pre]; [| discriminate H].
      exists post. exact H.
  - rewrite orb_true_iff, prefix_iff, IH. split.
    + intros [[post H]|(pre & post & H)].
      * exists "", post. exact H.
      * exists (String c pre), post. cbn. rewrite H. reflexivity.
    + intros (pre & post & H). destruct pre as [|d pre]; cbn in H.
      * left. exists post. exact H.
      * right. exists pre, post. congruence.
Qed.

Example toLowerCase_mixed : Js.toLowerCase "Extracting_PDF" = "extracting_pdf".
Proof. reflexivity. Qed.

Example includes_inside : Js.includes "prefetching" "fetch" = true.
Proof. reflexivity. Qed.

Example includes_missing : Js.includes "rendering" "animat" = false.
Proof. reflexivity. Qed.

Example showN_percent : ("Downloading paper... " ++ Js.showN 42 ++ "%")%string
                        = "Downloading paper... 42%".
Proof. reflexivity. Qed.

End JsFacts.

(** ** The stage mapper *)

Module StageMapperFacts.

Import ProcessingStep StageMapper.

Lemma handleProgress_fmap (js : JobStatus.t) (steps : list Step) :
  handleProgress js steps = handleProgressOne js <$> steps.
Proof.
  unfold handleProgress, handleProgressOne, updateStep,
    markAllCompleted, markActiveFailed.
  repeat match goal with
         | |- (if ?c then _ else _) = _ => destruct c
         end;
    rewrite <- ?list_fmap_compose; try reflexivity.
  symmetry. apply list_fmap_id.
Qed.

Lemma updateOne_mk (k : string) (st : Status) (d : option string)
    (i t d0 : string) (st0 : Status) :
  updateOne k st d (mk i t d0 st0) =
    if String.eqb i k then mk i t (Js.strOr d d0) st else mk i t d0 st0.
Proof. reflexivity. Qed.

(** Case analysis on the chain of tests on the stage token. *)
Ltac stage_cases :=
  repeat match goal with
         | |- context [if ?c then _ else _] =>
             lazymatch c with
             | context [stageOf _] => destruct c eqn:?
             end
         end.

(** Case analysis on the identifier tests of nested [updateOne]s
    applied to a step given by its fields. *)
Ltac id_cases :=
  repeat first
    [ rewrite updateOne_mk
    | match goal with
      | |- context [String.eqb ?i ?k] =>
          is_var i; destruct (String.eqb_spec i k); [subst i; try contradiction |]
      end
    | progress cbn [String.eqb Ascii.eqb Bool.eqb id title description status] ].

Lemma handleProgressOne_id (js : JobStatus.t) (s : Step) :
  id (handleProgressOne js s) = id s.
Proof.
  unfold handleProgressOne.
  stage_cases; destruct s as [i t d st]; id_cases; try reflexivity.
  unfold failOne; destruct st; reflexivity.
Qed.

Lemma strOr_absorb (a : option string) (b : string) :
  Js.strOr a (Js.strOr a b) = Js.strOr a b.
Proof. destruct a as [[|c a]|]; reflexivity. Qed.

Lemma handleProgressOne_idem (js : JobStatus.t) (s : Step) :
  handleProgressOne js (handleProgressOne js s) = handleProgressOne js s.
Proof.
  unfold handleProgressOne.
  stage_cases; destruct s as [i t d st]; id_cases;
    rewrite ?strOr_absorb; try reflexivity.
  unfold failOne; destruct st; reflexivity.
Qed.

Lemma handleProgress_lookup (js : JobStatus.t) (steps : list Step) (i : nat) :
  handleProgress js steps !! i = handleProgressOne js <$> steps !! i.
Proof. rewrite handleProgress_fmap. apply list_lookup_fmap. Qed.







(** C8. Applying the same status record twice in a row gives the
    same steps as applying it once. *)
Theorem handleProgress_idempotent (js : JobStatus.t) (steps : list Step) :
  handleProgress js (handleProgress js steps) = handleProgress js steps.
Proof.
  rewrite !handleProgress_fmap, <- list_fmap_compose.
  apply list_fmap_ext. intros i s _. apply handleProgressOne_idem.
Qed.

(** C10. A status record whose lowercased stage token is none of
    [queued], [completed], [failed] and contains none of [fetch],
    [extract], [segment], [animat] changes no step; a record without
    a stage field changes no step whatever its lifecycle is, [queued]
    included. *)
Theorem handleProgress_unrecognised (js : JobStatus.t) (steps : list Step) :
  (stageOf js <> "queued" ->
   Js.includes (stageOf js) "fetch" = false ->
   Js.includes (stageOf js) "extract" = false ->
   Js.includes (stageOf js) "segment" = false ->
   Js.includes (stageOf js) "animat" = false ->
   stageOf js <> "completed" ->
   stageOf js <> "failed" ->
   handleProgress js steps = steps) /\
  (JobStatus.stage js = None -> handleProgress js steps = steps).
Proof.
  split.
  - intros Hq Hf He Hs Ha Hc Hx. unfold handleProgress.
    rewrite Hf, He, Hs, Ha.
    repeat match goal with
           | |- context [String.eqb (stageOf js) ?k] =>
               destruct (String.eqb_spec (stageOf js) k) as [Heq|_];
               [ try contradiction;
                 rewrite Heq in *; discriminate |]
           end.
    reflexivity.
  - intros Hnone. unfold handleProgress, stageOf. rewrite Hnone. reflexivity.
Qed.

(** C10, at a record with an unknown stage token and at a queued
    record without a stage field. *)
Lemma handleProgress_unrecognised_witness :
  handleProgress
    (JobStatus.mk "job-1" JobStatus.processing (Some "Rendering")
       (Some "frame 3") (Some 40%N) None None) initialSteps = initialSteps /\
  handleProgress
    (JobStatus.mk "job-1" JobStatus.queued None None None None None)
    initialSteps = initialSteps.
Proof.
  split.
  - apply (proj1 (handleProgress_unrecognised
             (JobStatus.mk "job-1" JobStatus.processing (Some "Rendering")
                (Some "frame 3") (Some 40%N) None None) initialSteps));
      vm_compute; first [reflexivity | discriminate].
  - apply (proj2 (handleProgress_unrecognised
             (JobStatus.mk "job-1" JobStatus.queued None None None None None)
             initialSteps)).
    reflexivity.
Defined.




End StageMapperFacts.

(** ** The polling engine *)

Module PollFacts.

Import Poll.
Local Open Scope list_scope.

Section AnyCallback.

Context {S : Type}.
Variable onProgress : option (JobStatus.t -> S -> S * option Thrown).
Variables pollInterval maxAttempts : Z.
Variable getJobStatus : nat -> Fetch.

Local Abbreviation poll := (Poll.poll onProgress pollInterval maxAttempts getJobStatus).
Local Abbreviation runTimers :=
  (Poll.runTimers onProgress pollInterval maxAttempts getJobStatus).
Local Abbreviation onCatch := (Poll.onCatch pollInterval).

Lemma callProgress_spec (js : JobStatus.t) (x : Session S) :
  exists c' l,
    fst (callProgress onProgress js x) =
      mkSession (attempts x) (consecutiveErrors x) c' (timer x)
        (promise x) (log x ++ l)%list /\
    Forall (fun e => isProgress e = true) l.
Proof.
  unfold callProgress. destruct onProgress as [f|].
  - destruct (f js (caller x)) as [c r]. exists c, [evProgress js].
    split; [reflexivity | repeat constructor].
  - exists (caller x), []. rewrite app_nil_r. destruct x.
    split; [reflexivity | constructor].
Qed.

(** The [catch] block on a session whose promise is not settled. *)
Lemma onCatch_spec (err : Thrown) (x : Session S) :
  promise x = None ->
  attempts (onCatch err x) = attempts x /\
  consecutiveErrors (onCatch err x) = Datatypes.S (consecutiveErrors x) /\
  caller (onCatch err x) = caller x /\
  (if (Datatypes.S (consecutiveErrors x) <? maxConsecutiveErrors)%nat
   then promise (onCatch err x) = None /\
        timer (onCatch err x) = Some (pollInterval * 2)%Z /\
        log (onCatch err x) =
          (log x ++ [evWarn (attempts x) (Datatypes.S (consecutiveErrors x));
                     evSetTimeout (pollInterval * 2)])%list
   else promise (onCatch err x) = Some (rejected (connectionLostMessage err)) /\
        timer (onCatch err x) = timer x /\
        log (onCatch err x) =
          (log x ++ [evSettle (rejected (connectionLostMessage err))])%list).
Proof.
  intros Hp. unfold Poll.onCatch. cbn [consecutiveErrors attempts].
  destruct (Datatypes.S (consecutiveErrors x) <? maxConsecutiveErrors)%nat.
  - cbn. rewrite <- app_assoc. repeat split; auto.
  - unfold settle. cbn. rewrite Hp. cbn. repeat split; auto.
Qed.

(** [poll] when the request fails. *)
Lemma poll_failedWith (x : Session S) (err : Thrown) :
  getJobStatus (Datatypes.S (attempts x)) = failedWith err ->
  promise x = None ->
  attempts (poll x) = Datatypes.S (attempts x) /\
  consecutiveErrors (poll x) = Datatypes.S (consecutiveErrors x) /\
  caller (poll x) = caller x /\
  (if (Datatypes.S (consecutiveErrors x) <? maxConsecutiveErrors)%nat
   then promise (poll x) = None /\
        timer (poll x) = Some (pollInterval * 2)%Z /\
        log (poll x) =
          (log x ++ [evRequest (Datatypes.S (attempts x));
                     evWarn (Datatypes.S (attempts x))
                       (Datatypes.S (consecutiveErrors x));
                     evSetTimeout (pollInterval * 2)])%list
   else promise (poll x) = Some (rejected (connectionLostMessage err)) /\
        timer (poll x) = None /\
        log (poll x) =
          (log x ++ [evRequest (Datatypes.S (attempts x));
                     evSettle (rejected (connectionLostMessage err))])%list).
Proof.
  intros Hf Hp. unfold Poll.poll. cbn [attempts]. rewrite Hf.
  match goal with
  | |- context [Poll.onCatch _ err ?y] =>
      pose proof (onCatch_spec err y Hp) as (Ha & Hc & Hcl & Hrest);
      rewrite Ha, Hc, Hcl; cbn [attempts consecutiveErrors caller] in *
  end.
  repeat split.
  destruct (Datatypes.S (consecutiveErrors x) <? maxConsecutiveErrors)%nat;
    destruct Hrest as (H1 & H2 & H3); rewrite H1, H2, H3;
    cbn [log timer]; rewrite <- app_assoc; auto.
Qed.

Lemma connectionLost_not_timedOut (err : Thrown) :
  connectionLostMessage err <> timedOutMessage.
Proof.
  intros H. apply (f_equal (String.get 0)) in H.
  vm_compute in H. discriminate H.
Qed.

(** The shape of every run of [poll] on an unsettled session: one
    request, then progress or warning events, then either a new
    timer or the settlement of the promise. *)
Lemma poll_shape (x : Session S) :
  promise x = None ->
  exists ce' c' mid,
    Forall (fun e => isSettle e = false /\ isRequest e = false) mid /\
    ((exists d,
        poll x = mkSession (Datatypes.S (attempts x)) ce' c' (Some d) None
                   (log x ++ evRequest (Datatypes.S (attempts x))
                      :: mid ++ [evSetTimeout d])%list) \/
     (exists o,
        poll x = mkSession (Datatypes.S (attempts x)) ce' c' None (Some o)
                   (log x ++ evRequest (Datatypes.S (attempts x))
                      :: mid ++ [evSettle o])%list /\
        (o = rejected timedOutMessage ->
         exists js, getJobStatus (Datatypes.S (attempts x)) = fetched js))).
Proof.
  destruct x as [a ce c tm pr lg]. cbn [promise attempts log]. intros ->.
  unfold Poll.poll, Poll.onCatch, callProgress, settle, setTimeout, emit.
  cbn [attempts consecutiveErrors caller timer promise log].
  destruct (getJobStatus (Datatypes.S a)) as [js|err] eqn:Hf.
  - destruct onProgress as [f|].
    + destruct (f js c) as [c' [err|]].
      * cbn [attempts consecutiveErrors caller timer promise log].
        destruct (1 <? maxConsecutiveErrors)%nat.
        -- exists 1%nat, c', [evProgress js; evWarn (Datatypes.S a) 1].
           split; [repeat constructor |]. left. eexists.
           rewrite <- !app_assoc. reflexivity.
        -- exists 1%nat, c', [evProgress js].
           split; [repeat constructor |]. right. eexists.
           split; [rewrite <- !app_assoc; reflexivity | eauto].
      * exists 0%nat, c', [evProgress js].
        split; [repeat constructor |].
        destruct (JobStatus.status js);
          cbn [attempts consecutiveErrors caller timer promise log];
          try destruct (maxAttempts <=? Z.of_nat (Datatypes.S a))%Z;
          rewrite <- !app_assoc;
          first [ left; eexists; reflexivity
                | right; eexists; split; [reflexivity | eauto] ].
    + exists 0%nat, c, [].
      split; [constructor |].
      destruct (JobStatus.status js);
        cbn [attempts consecutiveErrors caller timer promise log];
        try destruct (maxAttempts <=? Z.of_nat (Datatypes.S a))%Z;
        rewrite <- !app_assoc;
        first [ left; eexists; reflexivity
              | right; eexists; split; [reflexivity | eauto] ].
  - destruct (Datatypes.S ce <? maxConsecutiveErrors)%nat.
    + exists (Datatypes.S ce), c, [evWarn (Datatypes.S a) (Datatypes.S ce)].
      split; [repeat constructor |]. left. eexists.
      rewrite <- !app_assoc. reflexivity.
    + exists (Datatypes.S ce), c, [].
      split; [constructor |]. right. eexists.
      split; [rewrite <- !app_assoc; reflexivity |].
      intros H. exfalso. apply (connectionLost_not_timedOut err). congruence.
Qed.

Lemma count_app (p : Event -> bool) (l l' : list Event) :
  count p (l ++ l') = (count p l + count p l')%nat.
Proof. unfold count. rewrite List.filter_app. apply length_app. Qed.

Lemma count_none (p : Event -> bool) (l : list Event) :
  Forall (fun e => p e = false) l -> count p l = 0%nat.
Proof.
  unfold count. induction 1 as [|e l He _ IH]; [reflexivity |].
  cbn. rewrite He. exact IH.
Qed.

Lemma poll_invariant (x : Session S) :
  promise x = None ->
  invariant getJobStatus x ->
  invariant getJobStatus (poll x).
Proof.
  intros Hp (Hlast & Hreq & _).
  unfold settledLast in Hlast. rewrite Hp in Hlast.
  destruct (poll_shape x Hp) as (ce' & c' & mid & Hmid & [[d ->]|[o [-> Hto]]]);
    unfold invariant, settledLast;
    cbn [promise timer log attempts].
  - split; [| split].
    + apply Forall_app. split; [exact Hlast |].
      constructor; [reflexivity |].
      apply Forall_app. split; [| repeat constructor].
      eapply Forall_impl; [exact Hmid |]. cbn. tauto.
    + rewrite count_app, Hreq.
      change (evRequest (Datatypes.S (attempts x)) :: mid ++ [evSetTimeout d])
        with ([evRequest (Datatypes.S (attempts x))] ++ mid ++ [evSetTimeout d]).
      rewrite !count_app, (count_none isRequest mid).
      * cbn. lia.
      * eapply Forall_impl; [exact Hmid |]. cbn. tauto.
    + discriminate.
  - split; [| split].
    + split; [reflexivity |].
      exists (log x ++ evRequest (Datatypes.S (attempts x)) :: mid).
      split.
      * rewrite <- app_assoc. reflexivity.
      * apply Forall_app. split; [exact Hlast |].
        constructor; [reflexivity |].
        eapply Forall_impl; [exact Hmid |]. cbn. tauto.
    + rewrite count_app, Hreq.
      change (evRequest (Datatypes.S (attempts x)) :: mid ++ [evSettle o])
        with ([evRequest (Datatypes.S (attempts x))] ++ mid ++ [evSettle o]).
      rewrite !count_app, (count_none isRequest mid).
      * cbn. lia.
      * eapply Forall_impl; [exact Hmid |]. cbn. tauto.
    + intros [= ->]. apply Hto. reflexivity.
Qed.

Lemma invariant_timer (x : Session S) (d : Z) :
  invariant getJobStatus x -> timer x = Some d -> promise x = None.
Proof.
  intros (Hlast & _) Ht. unfold settledLast in Hlast.
  destruct (promise x); [| reflexivity].
  destruct Hlast as [Hn _]. congruence.
Qed.

Lemma runTimers_invariant (fuel : nat) :
  forall x : Session S,
    invariant getJobStatus x -> invariant getJobStatus (runTimers fuel x).
Proof.
  induction fuel as [|fuel IH]; intros x Hx; cbn; [exact Hx |].
  destruct (timer x) as [d|] eqn:Ht; [| exact Hx].
  apply IH, poll_invariant; [| exact Hx].
  eapply invariant_timer; eassumption.
Qed.

Lemma start_invariant (c : S) : invariant getJobStatus (start c).
Proof.
  unfold invariant, settledLast. cbn.
  split; [constructor | split; [reflexivity | discriminate]].
Qed.

Lemma pollJobUntilComplete_invariant (fuel : nat) (c : S) :
  invariant getJobStatus
    (pollJobUntilComplete onProgress pollInterval maxAttempts
       getJobStatus fuel c).
Proof.
  apply runTimers_invariant, poll_invariant;
    [reflexivity | apply start_invariant].
Qed.

(** Once no timer is pending nothing runs any more. *)
Lemma runTimers_idle (fuel : nat) (x : Session S) :
  timer x = None -> runTimers fuel x = x.
Proof. intros Ht. destruct fuel; cbn; [| rewrite Ht]; reflexivity. Qed.

Lemma runTimers_add (n m : nat) :
  forall x : Session S,
    runTimers (n + m) x = runTimers m (runTimers n x).
Proof.
  induction n as [|n IH]; intros x; cbn; [reflexivity |].
  destruct (timer x) eqn:Ht; [apply IH |].
  symmetry. apply runTimers_idle, Ht.
Qed.

(** The time-out test plays no part when the request fails. *)
Lemma poll_failedWith_any_budget (x : Session S) (err : Thrown)
    (maxAttempts' : Z) :
  getJobStatus (Datatypes.S (attempts x)) = failedWith err ->
  Poll.poll onProgress pollInterval maxAttempts' getJobStatus x = poll x.
Proof.
  intros Hf. unfold Poll.poll. cbn [attempts]. rewrite Hf. reflexivity.
Qed.

(** Requests that keep failing until the streak reaches the limit. *)
Lemma failing_streak (k : nat) :
  forall (x : Session S) (err : nat -> Thrown),
    promise x = None ->
    (consecutiveErrors x + Datatypes.S k = maxConsecutiveErrors)%nat ->
    (forall n, (attempts x < n <= attempts x + Datatypes.S k)%nat ->
               getJobStatus n = failedWith (err n)) ->
    let x' := runTimers k (poll x) in
    promise x' =
      Some (rejected (connectionLostMessage
                        (err (attempts x + Datatypes.S k)%nat))) /\
    attempts x' = (attempts x + Datatypes.S k)%nat /\
    timer x' = None /\
    caller x' = caller x.
Proof.
  induction k as [|k IH]; intros x err Hp Hce Hfail; cbn zeta.
  - destruct (poll_failedWith x (err (Datatypes.S (attempts x))))
      as (Ha & _ & Hc & Hrest); [apply Hfail; lia | exact Hp |].
    destruct (Nat.ltb_spec (Datatypes.S (consecutiveErrors x))
                maxConsecutiveErrors); [lia |].
    destruct Hrest as (Hpr & Htm & _). cbn [Poll.runTimers].
    replace (attempts x + 1)%nat with (Datatypes.S (attempts x)) by lia.
    auto.
  - destruct (poll_failedWith x (err (Datatypes.S (attempts x))))
      as (Ha & Hc & Hcl & Hrest); [apply Hfail; lia | exact Hp |].
    destruct (Nat.ltb_spec (Datatypes.S (consecutiveErrors x))
                maxConsecutiveErrors); [| lia].
    destruct Hrest as (Hpr & Htm & _). cbn [Poll.runTimers]. rewrite Htm.
    destruct (IH (poll x) err Hpr) as (H1 & H2 & H3 & H4).
    + rewrite Hc. lia.
    + intros n Hn. apply Hfail. lia.
    + rewrite Ha in H1, H2.
      replace (Datatypes.S (attempts x) + Datatypes.S k)%nat
        with (attempts x + Datatypes.S (Datatypes.S k))%nat in H1, H2 by lia.
      rewrite Hcl in H4. auto.
Qed.

End AnyCallback.

(** The limit of the results on callbacks that return: an exception
    of the progress callback lands in the [catch] block of [poll]
    like a failed request, right after the counter was reset, so with
    a callback that always throws and an endpoint that always answers
    the counter never passes 1 and the promise is never settled. *)
Remark throwing_callback_never_settles (pollInterval maxAttempts : Z)
    (fuel : nat) (steps : list ProcessingStep.t) :
  promise (pollJobUntilComplete (Some Samples.alwaysThrowing) pollInterval
             maxAttempts Samples.alwaysProcessing fuel steps) = None.
Proof.
  unfold pollJobUntilComplete.
  assert (Hstep : forall x : Session (list ProcessingStep.t),
            promise x = None ->
            promise (poll (Some Samples.alwaysThrowing) pollInterval
                       maxAttempts Samples.alwaysProcessing x) = None).
  { intros [a ce c tm pr lg]. cbn [promise]. intros ->. reflexivity. }
  generalize (Hstep (start steps) eq_refl).
  generalize (poll (Some Samples.alwaysThrowing) pollInterval maxAttempts
                Samples.alwaysProcessing (start steps)).
  induction fuel as [|fuel IH]; intros x Hx; cbn; [exact Hx |].
  destruct (timer x); [| exact Hx]. apply IH, Hstep, Hx.
Qed.

(** The same on every endpoint that answers every request: each timer
    fires, one request is sent per tick, the promise stays as it is. *)
Lemma throwing_callback_keeps_polling (pollInterval maxAttempts : Z)
    (getJobStatus : nat -> Fetch) (fuel : nat)
    (steps : list ProcessingStep.t) :
  (forall n, exists js, getJobStatus n = fetched js) ->
  let x := pollJobUntilComplete (Some Samples.alwaysThrowing) pollInterval
             maxAttempts getJobStatus fuel steps in
  promise x = None /\ attempts x = Datatypes.S fuel.
Proof.
  intros Hans. cbn zeta. unfold pollJobUntilComplete.
  assert (Hstep : forall x : Session (list ProcessingStep.t),
            promise x = None ->
            let x' := poll (Some Samples.alwaysThrowing) pollInterval
                        maxAttempts getJobStatus x in
            promise x' = None /\ timer x' = Some (pollInterval * 2)%Z /\
            attempts x' = Datatypes.S (attempts x)).
  { intros [a ce c tm pr lg]. cbn [promise attempts]. intros ->.
    destruct (Hans (Datatypes.S a)) as (js & Hf).
    unfold poll. cbn [attempts]. rewrite Hf. cbn. auto. }
  destruct (Hstep (start steps) eq_refl) as (Hp & Ht & Ha).
  revert Hp Ht Ha.
  generalize (poll (Some Samples.alwaysThrowing) pollInterval maxAttempts
                getJobStatus (start steps)).
  cbn [start attempts].
  assert (Hgen : forall (n : nat) (x : Session (list ProcessingStep.t)),
            promise x = None -> timer x = Some (pollInterval * 2)%Z ->
            promise (runTimers (Some Samples.alwaysThrowing) pollInterval
                       maxAttempts getJobStatus n x) = None /\
            attempts (runTimers (Some Samples.alwaysThrowing) pollInterval
                        maxAttempts getJobStatus n x) = (attempts x + n)%nat).
  { induction n as [|n IH]; intros x Hp Ht; cbn.
    - split; [exact Hp | lia].
    - rewrite Ht. destruct (Hstep x Hp) as (Hp' & Ht' & Ha').
      destruct (IH _ Hp' Ht') as [H1 H2]. rewrite H1, H2, Ha'.
      split; [reflexivity | lia]. }
  intros x Hp Ht Ha. destruct (Hgen fuel x Hp Ht) as [H1 H2].
  rewrite H1, H2, Ha. split; [reflexivity | lia].
Qed.

Section ReturningCallback.

Context {S : Type}.
Variable g : option (JobStatus.t -> S -> S).
Variables pollInterval maxAttempts : Z.
Variable getJobStatus : nat -> Fetch.

Local Abbreviation onProgress := (option_map returning g).
Local Abbreviation poll :=
  (Poll.poll onProgress pollInterval maxAttempts getJobStatus).
Local Abbreviation runTimers :=
  (Poll.runTimers onProgress pollInterval maxAttempts getJobStatus).

(** [poll] when the request is answered and the callback returns. *)
Lemma poll_fetched (x : Session S) (js : JobStatus.t) :
  getJobStatus (Datatypes.S (attempts x)) = fetched js ->
  promise x = None ->
  attempts (poll x) = Datatypes.S (attempts x) /\
  consecutiveErrors (poll x) = 0%nat /\
  caller (poll x) = progressed g js (caller x) /\
  match JobStatus.status js with
  | JobStatus.completed =>
      promise (poll x) = Some (resolved js) /\ timer (poll x) = None
  | JobStatus.failed =>
      promise (poll x) =
        Some (rejected (Js.strOr (JobStatus.error js) "Job failed")) /\
      timer (poll x) = None
  | _ =>
      if (maxAttempts <=? Z.of_nat (Datatypes.S (attempts x)))%Z
      then promise (poll x) = Some (rejected timedOutMessage) /\
           timer (poll x) = None
      else promise (poll x) = None /\ timer (poll x) = Some pollInterval
  end.
Proof.
  destruct x as [a ce c tm pr lg]. cbn [promise attempts caller].
  intros Hf ->.
  unfold Poll.poll, callProgress, settle, setTimeout, progressed.
  cbn [attempts consecutiveErrors caller timer promise log]. rewrite Hf.
  destruct g as [f|]; cbn [option_map returning];
    destruct (JobStatus.status js);
    cbn [attempts consecutiveErrors caller timer promise log];
    try destruct (maxAttempts <=? Z.of_nat (Datatypes.S a))%Z;
    cbn [attempts consecutiveErrors caller timer promise log];
    repeat split; reflexivity.
Qed.

Lemma poll_budget (x : Session S) :
  promise x = None ->
  (consecutiveErrors x < maxConsecutiveErrors)%nat ->
  (timer (poll x) = None /\ exists o, promise (poll x) = Some o) \/
  (exists d, timer (poll x) = Some d /\ promise (poll x) = None /\
             (consecutiveErrors (poll x) < maxConsecutiveErrors)%nat /\
             (budget maxAttempts (poll x) < budget maxAttempts x)%nat).
Proof.
  intros Hp Hce.
  destruct (getJobStatus (Datatypes.S (attempts x))) as [js|err] eqn:Hf.
  - destruct (poll_fetched x js Hf Hp) as (Ha & Hc & _ & Hrest).
    destruct (JobStatus.status js);
      try (left; destruct Hrest as [-> ->]; eauto; fail).
    all: destruct (Z.leb_spec maxAttempts (Z.of_nat (Datatypes.S (attempts x))));
      destruct Hrest as [Hpr Htm];
      [ left; rewrite Hpr, Htm; eauto
      | right; exists pollInterval; rewrite Hpr, Htm, Hc;
        unfold budget, maxConsecutiveErrors in *; rewrite Ha;
        repeat split; try lia;
        repeat match goal with
               | |- context [(?n <? ?m)%nat] => destruct (Nat.ltb_spec n m)
               end; lia ].
  - destruct (poll_failedWith onProgress pollInterval maxAttempts
                getJobStatus x err Hf Hp) as (Ha & Hc & _ & Hrest).
    destruct (Nat.ltb_spec (Datatypes.S (consecutiveErrors x))
                maxConsecutiveErrors) as [Hlt|Hge];
      destruct Hrest as (Hpr & Htm & _).
    + right. exists (pollInterval * 2)%Z. rewrite Hpr, Htm, Hc.
      unfold budget, maxConsecutiveErrors in *. rewrite Ha, Hc.
      repeat split; try lia.
      repeat match goal with
             | |- context [(?n <? ?m)%nat] => destruct (Nat.ltb_spec n m)
             end; lia.
    + left. rewrite Hpr, Htm. eauto.
Qed.

Lemma budget_positive (x : Session S) :
  (consecutiveErrors x < maxConsecutiveErrors)%nat ->
  (0 < budget maxAttempts x)%nat.
Proof.
  unfold budget, maxConsecutiveErrors.
  destruct (Nat.ltb_spec (Datatypes.S (attempts x)) (Z.to_nat maxAttempts)); lia.
Qed.

(** With enough fuel the event loop runs until the promise is
    settled. *)
Lemma runTimers_settles (fuel : nat) :
  forall (x : Session S) (d : Z),
    timer x = Some d ->
    promise x = None ->
    (consecutiveErrors x < maxConsecutiveErrors)%nat ->
    (budget maxAttempts x <= fuel)%nat ->
    timer (runTimers fuel x) = None /\
    exists o, promise (runTimers fuel x) = Some o.
Proof.
  induction fuel as [|fuel IH]; intros x d Ht Hp Hce Hb.
  - pose proof (budget_positive x Hce). lia.
  - cbn. rewrite Ht.
    destruct (poll_budget x Hp Hce) as [[Htm Hpr]|(d' & Htm & Hpr & Hce' & Hlt)].
    + rewrite runTimers_idle by exact Htm. auto.
    + apply (IH _ d'); auto. lia.
Qed.

Lemma pollJobUntilComplete_settles (fuel : nat) (c : S) :
  (Z.to_nat maxAttempts + maxConsecutiveErrors <= fuel)%nat ->
  let x := pollJobUntilComplete onProgress pollInterval maxAttempts
             getJobStatus fuel c in
  timer x = None /\ exists o, promise x = Some o.
Proof.
  intros Hfuel. cbn. unfold pollJobUntilComplete.
  destruct (poll_budget (start c) eq_refl)
    as [[Htm Hpr]|(d' & Htm & Hpr & Hce' & Hlt)].
  - cbn. unfold maxConsecutiveErrors. lia.
  - rewrite runTimers_idle by exact Htm. auto.
  - apply (runTimers_settles fuel _ d'); auto.
    revert Hlt. generalize (budget maxAttempts (poll (start c))).
    unfold budget, maxConsecutiveErrors in *. cbn [attempts consecutiveErrors start].
    intros n.
    destruct (Nat.ltb_spec 1 (Z.to_nat maxAttempts)); lia.
Qed.

(** Requests that are all answered with a job still in progress,
    up to the attempt that uses up the budget. *)
Lemma processing_until_budget (k : nat) :
  forall (x : Session S) (d : Z),
    timer x = Some d ->
    promise x = None ->
    (forall n, exists js, getJobStatus n = fetched js /\
                          JobStatus.status js = JobStatus.processing) ->
    maxAttempts = Z.of_nat (attempts x + Datatypes.S k) ->
    let x' := runTimers (Datatypes.S k) x in
    promise x' = Some (rejected timedOutMessage) /\
    attempts x' = (attempts x + Datatypes.S k)%nat /\
    timer x' = None.
Proof.
  induction k as [|k IH]; intros x d Ht Hp Hproc Hmax; cbn zeta;
    cbn [Poll.runTimers]; rewrite Ht;
    destruct (Hproc (Datatypes.S (attempts x))) as (js & Hf & Hst);
    destruct (poll_fetched x js Hf Hp) as (Ha & _ & _ & Hrest);
    rewrite Hst in Hrest;
    destruct (Z.leb_spec maxAttempts (Z.of_nat (Datatypes.S (attempts x))));
    try lia; destruct Hrest as [Hpr Htm].
  - rewrite Hpr, Htm, Ha. repeat split; auto. lia.
  - destruct (IH (poll x) pollInterval Htm Hpr Hproc) as (H1 & H2 & H3).
    + rewrite Ha. lia.
    + cbn [Poll.runTimers] in H1, H2, H3. rewrite Htm in H1, H2, H3.
      rewrite Htm. rewrite Ha in H2. repeat split; auto. lia.
Qed.

End ReturningCallback.

(** C4, as the code has it. With [maxAttempts = 3], a progress callback
    that returns, or none, and an endpoint that answers every request
    with a job in lifecycle [processing], the session rejects with the
    time-out message, having sent exactly 3 requests. *)
Theorem three_attempts_time_out {S : Type}
    (g : option (JobStatus.t -> S -> S)) (pollInterval : Z)
    (getJobStatus : nat -> Fetch) (fuel : nat) (c : S) :
  (forall n, exists js, getJobStatus n = fetched js /\
                        JobStatus.status js = JobStatus.processing) ->
  (2 <= fuel)%nat ->
  let x := pollJobUntilComplete (option_map returning g) pollInterval 3
             getJobStatus fuel c in
  promise x = Some (rejected timedOutMessage) /\
  attempts x = 3%nat /\
  count isRequest (log x) = 3%nat /\
  timer x = None.
Proof.
  intros Hproc Hfuel x.
  assert (Hinv := pollJobUntilComplete_invariant (option_map returning g)
                    pollInterval 3 getJobStatus fuel c).
  fold x in Hinv. destruct Hinv as (_ & Hreq & _).
  assert (promise x = Some (rejected timedOutMessage) /\
          attempts x = 3%nat /\ timer x = None) as (Hpr & Ha & Htm).
  { subst x. unfold pollJobUntilComplete.
    destruct (Hproc 1%nat) as (js & Hf & Hst).
    destruct (poll_fetched g pollInterval 3 getJobStatus (start c) js Hf eq_refl)
      as (Ha & _ & _ & Hrest).
    rewrite Hst in Hrest. cbn in Hrest. destruct Hrest as [Hpr Htm].
    destruct (processing_until_budget g pollInterval 3 getJobStatus 1
                _ pollInterval Htm Hpr Hproc) as (H1 & H2 & H3).
    { rewrite Ha. reflexivity. }
    replace fuel with (2 + (fuel - 2))%nat by lia.
    rewrite runTimers_add, runTimers_idle by exact H3.
    rewrite Ha in H2. auto. }
  rewrite Hreq. auto.
Qed.

(** C4 as stated fails: with [maxAttempts = 3], an endpoint that
    answers every request with a job in lifecycle [processing] and a
    progress callback that throws, the session never times out; every
    timer fires, so after 50 of them 51 requests have been sent, and
    the promise is not settled. *)
Lemma throwing_callback_never_times_out :
  (forall fuel,
     let x := pollJobUntilComplete (Some Samples.alwaysThrowing) 3000 3
                Samples.alwaysProcessing fuel StageMapper.initialSteps in
     promise x = None /\ attempts x = Datatypes.S fuel) /\
  (let x := pollJobUntilComplete (Some Samples.alwaysThrowing) 3000 3
              Samples.alwaysProcessing 50 StageMapper.initialSteps in
   promise x = None /\ count isRequest (log x) = 51%nat).
Proof.
  split.
  - intros fuel.
    apply (throwing_callback_keeps_polling 3000 3 Samples.alwaysProcessing
             fuel StageMapper.initialSteps).
    intros n. exists Samples.extracting. reflexivity.
  - split; vm_compute; reflexivity.
Qed.

(** C4, on the three-step pipeline polled every 3 seconds. *)
Lemma three_attempts_time_out_witness :
  let x := pollJobUntilComplete (Some App.progressCallback) 3000 3
             Samples.alwaysProcessing 5 StageMapper.initialSteps in
  promise x = Some (rejected timedOutMessage) /\
  attempts x = 3%nat /\
  count isRequest (log x) = 3%nat /\
  timer x = None.
Proof.
  apply (three_attempts_time_out (Some StageMapper.handleProgress) 3000
           Samples.alwaysProcessing 5 StageMapper.initialSteps).
  - intros n. exists Samples.extracting. split; reflexivity.
  - lia.
Defined.

(** C6, as the code has it. At every moment of every session,
    whatever the callback does,
    the promise has been settled at most once; once it is settled the
    settlement is the last event of the session, so every call of the
    progress callback comes before it, no timer is left and running
    the event loop any longer changes nothing. With a callback that
    returns, the promise is settled after at most [maxAttempts + 10]
    timers, and the session is the same however long it is run. *)
Theorem exactly_one_outcome {S : Type} (pollInterval maxAttempts : Z)
    (getJobStatus : nat -> Fetch) (c : S) :
  (forall onProgress fuel,
     let x := pollJobUntilComplete onProgress pollInterval maxAttempts
                getJobStatus fuel c in
     match promise x with
     | None => count isSettle (log x) = 0%nat
     | Some o =>
         count isSettle (log x) = 1%nat /\
         (exists pre, log x = pre ++ [evSettle o] /\
                      Forall (fun e => isSettle e = false) pre) /\
         timer x = None /\
         (forall more,
            runTimers onProgress pollInterval maxAttempts getJobStatus
              more x = x)
     end) /\
  (forall g fuel,
     (Z.to_nat maxAttempts + maxConsecutiveErrors <= fuel)%nat ->
     let x := pollJobUntilComplete (option_map returning g) pollInterval
                maxAttempts getJobStatus fuel c in
     (exists o, promise x = Some o) /\
     (forall fuel', (fuel <= fuel')%nat ->
        pollJobUntilComplete (option_map returning g) pollInterval
          maxAttempts getJobStatus fuel' c = x)).
Proof.
  split.
  - intros onProgress fuel x.
    assert (Hinv := pollJobUntilComplete_invariant onProgress
                      pollInterval maxAttempts getJobStatus fuel c).
    fold x in Hinv. destruct Hinv as (Hlast & _ & _).
    unfold settledLast in Hlast. destruct (promise x) as [o|].
    + destruct Hlast as (Htm & pre & Hlog & Hpre).
      split; [| split; [| split]].
      * rewrite Hlog, count_app, (count_none isSettle pre Hpre). reflexivity.
      * exists pre. auto.
      * exact Htm.
      * intros more. apply runTimers_idle, Htm.
    + apply count_none, Hlast.
  - intros g fuel Hfuel x.
    destruct (pollJobUntilComplete_settles g pollInterval maxAttempts
                getJobStatus fuel c Hfuel) as (Htm & o & Hpr).
    fold x in Htm, Hpr. split; [exists o; exact Hpr |].
    intros fuel' Hle. subst x. unfold pollJobUntilComplete in *.
    replace fuel' with (fuel + (fuel' - fuel))%nat by lia.
    rewrite runTimers_add. apply runTimers_idle, Htm.
Qed.



(** C7. A failed request never produces the time-out rejection: the
    run of [poll] that sees the failure does not look at
    [maxAttempts] at all, it is the same whatever the budget is, and
    while the streak is below the limit it sets the next timer to
    twice the poll interval. A session that did time out got an
    answer to its last request. *)
Theorem failed_fetch_never_times_out {S : Type}
    (onProgress : option (JobStatus.t -> S -> S * option Thrown))
    (pollInterval maxAttempts : Z) (getJobStatus : nat -> Fetch) :
  (forall (x : Session S) err,
     promise x = None ->
     getJobStatus (Datatypes.S (attempts x)) = failedWith err ->
     let x' := poll onProgress pollInterval maxAttempts getJobStatus x in
     promise x' <> Some (rejected timedOutMessage) /\
     (forall maxAttempts',
        poll onProgress pollInterval maxAttempts' getJobStatus x = x') /\
     ((Datatypes.S (consecutiveErrors x) < maxConsecutiveErrors)%nat ->
      promise x' = None /\ timer x' = Some (pollInterval * 2)%Z)) /\
  (forall (fuel : nat) (c : S),
     let x := pollJobUntilComplete onProgress pollInterval maxAttempts
                getJobStatus fuel c in
     promise x = Some (rejected timedOutMessage) ->
     exists js, getJobStatus (attempts x) = fetched js).
Proof.
  split.
  - intros x err Hp Hf. cbn zeta.
    destruct (poll_failedWith onProgress pollInterval maxAttempts
                getJobStatus x err Hf Hp) as (_ & _ & _ & Hrest).
    destruct (Nat.ltb_spec (Datatypes.S (consecutiveErrors x))
                maxConsecutiveErrors) as [Hlt|Hge];
      destruct Hrest as (Hpr & Htm & _); rewrite Hpr, Htm.
    + split; [discriminate |]. split; [| auto].
      intros m. apply poll_failedWith_any_budget with (err := err). exact Hf.
    + split.
      * intros H. apply (connectionLost_not_timedOut err). congruence.
      * split; [| lia].
        intros m. apply poll_failedWith_any_budget with (err := err). exact Hf.
  - intros fuel c x Hto.
    destruct (pollJobUntilComplete_invariant onProgress pollInterval
                maxAttempts getJobStatus fuel c) as (_ & _ & H).
    apply H, Hto.
Qed.

(** C7, on the endpoint that always fails, with the attempt budget
    already used up. *)
Lemma failed_fetch_never_times_out_witness :
  let x := mkSession 3 0 StageMapper.initialSteps (Some 3000%Z) None [] in
  let x' := poll (Some App.progressCallback) 3000 3 Samples.alwaysFailing x in
  promise x' <> Some (rejected timedOutMessage) /\
  (forall maxAttempts',
     poll (Some App.progressCallback) 3000 maxAttempts'
       Samples.alwaysFailing x = x') /\
  ((1 < maxConsecutiveErrors)%nat ->
   promise x' = None /\ timer x' = Some 6000%Z).
Proof.
  apply (proj1 (failed_fetch_never_times_out (Some App.progressCallback)
                  3000 3 Samples.alwaysFailing)
           (mkSession 3 0 StageMapper.initialSteps (Some 3000%Z) None [])
           (errorObject "Network Error"));
    reflexivity.
Defined.

(** C9 as stated fails: whatever poll interval and attempt budget
    the caller passes, a session against an endpoint that always
    fails gives up after exactly 10 requests, and the timer set after
    the first failure is twice the poll interval. *)
Lemma streak_limit_and_backoff_are_fixed :
  ~ (exists pollInterval maxAttempts : Z,
       attempts (pollJobUntilComplete (Some App.progressCallback)
                   pollInterval maxAttempts Samples.alwaysFailing 20
                   StageMapper.initialSteps) <> 10%nat) /\
  ~ (exists pollInterval maxAttempts : Z,
       timer (poll (Some App.progressCallback) pollInterval maxAttempts
                Samples.alwaysFailing (start StageMapper.initialSteps))
       <> Some (pollInterval * 2)%Z).
Proof.
  split; intros (p & m & H); apply H; clear H.
  - unfold pollJobUntilComplete.
    destruct (failing_streak (Some App.progressCallback) p m
                Samples.alwaysFailing 9 (start StageMapper.initialSteps)
                (fun _ => errorObject "Network Error") eq_refl eq_refl)
      as (_ & Ha & Htm & _); [reflexivity |].
    change 20%nat with (9 + 11)%nat.
    rewrite runTimers_add, runTimers_idle by exact Htm. exact Ha.
  - destruct (poll_failedWith (Some App.progressCallback) p m
                Samples.alwaysFailing (start StageMapper.initialSteps)
                (errorObject "Network Error") eq_refl eq_refl)
      as (_ & _ & _ & _ & Htm & _). exact Htm.
Qed.

(** C9, as the code has it. The caller chooses the poll interval and
    the attempt budget: an answered request of a job in progress sets
    the next timer to [pollInterval] while the budget lasts and
    rejects with the time-out message once [attempts >= maxAttempts].
    The tolerance for consecutive failures and the back-off are not
    the caller's: for every choice of the above a failed request sets
    the next timer to twice the poll interval while the streak is
    below 10, and rejects citing 10 retries when it reaches 10. *)
Theorem timing_options {S : Type}
    (g : option (JobStatus.t -> S -> S)) (pollInterval maxAttempts : Z)
    (getJobStatus : nat -> Fetch) (x : Session S) :
  promise x = None ->
  let x' := poll (option_map returning g) pollInterval maxAttempts
              getJobStatus x in
  (forall js,
     getJobStatus (Datatypes.S (attempts x)) = fetched js ->
     JobStatus.status js = JobStatus.processing ->
     ((Z.of_nat (Datatypes.S (attempts x)) < maxAttempts)%Z ->
      promise x' = None /\ timer x' = Some pollInterval) /\
     ((maxAttempts <= Z.of_nat (Datatypes.S (attempts x)))%Z ->
      promise x' = Some (rejected timedOutMessage) /\ timer x' = None)) /\
  (forall err,
     getJobStatus (Datatypes.S (attempts x)) = failedWith err ->
     ((Datatypes.S (consecutiveErrors x) < 10)%nat ->
      promise x' = None /\ timer x' = Some (pollInterval * 2)%Z) /\
     ((10 <= Datatypes.S (consecutiveErrors x))%nat ->
      promise x' =
        Some (rejected ("Connection lost after 10 retries: "
                        ++ messageOf err)%string) /\
      timer x' = None)).
Proof.
  intros Hp x'. split.
  - intros js Hf Hst.
    destruct (poll_fetched g pollInterval maxAttempts getJobStatus x js Hf Hp)
      as (_ & _ & _ & Hrest).
    rewrite Hst in Hrest. fold x' in Hrest.
    destruct (Z.leb_spec maxAttempts (Z.of_nat (Datatypes.S (attempts x))));
      split; intros; first [lia | exact Hrest].
  - intros err Hf.
    destruct (poll_failedWith (option_map returning g) pollInterval
                maxAttempts getJobStatus x err Hf Hp) as (_ & _ & _ & Hrest).
    fold x' in Hrest.
    destruct (Nat.ltb_spec (Datatypes.S (consecutiveErrors x))
                maxConsecutiveErrors) as [Hlt|Hge];
      unfold maxConsecutiveErrors in *;
      destruct Hrest as (Hpr & Htm & _);
      split; intros; first [lia | split; assumption].
Qed.

(** C9, on a session whose fourth request fails for the first time. *)
Lemma timing_options_witness :
  let x' := poll (Some App.progressCallback) 3000 600 Samples.alwaysFailing
              (Samples.midSession StageMapper.initialSteps) in
  promise x' = None /\ timer x' = Some 6000%Z.
Proof.
  apply (proj2 (timing_options (Some StageMapper.handleProgress) 3000 600
                  Samples.alwaysFailing
                  (Samples.midSession StageMapper.initialSteps) eq_refl)
           (errorObject "Network Error") eq_refl).
  cbn. lia.
Defined.

(** C6 as stated fails: with a progress callback that throws and an
    endpoint that reports the job finished from the third request on,
    the session never produces an outcome, however long it runs; after
    100 timers the callback has been called 101 times and the promise
    is not settled. *)
Lemma throwing_callback_no_outcome :
  (let x := pollJobUntilComplete (Some Samples.alwaysThrowing) 3000 600
              Samples.doneAtThird 100 StageMapper.initialSteps in
   promise x = None /\ count isSettle (log x) = 0%nat /\
   count isProgress (log x) = 101%nat) /\
  (forall fuel,
     let x := pollJobUntilComplete (Some Samples.alwaysThrowing) 3000 600
                Samples.doneAtThird fuel StageMapper.initialSteps in
     promise x = None /\ attempts x = Datatypes.S fuel).
Proof.
  split.
  - repeat split; vm_compute; reflexivity.
  - intros fuel.
    apply (throwing_callback_keeps_polling 3000 600 Samples.doneAtThird
             fuel StageMapper.initialSteps).
    intros [|[|[|n]]]; eexists; reflexivity.
Qed.

(** C6, on a job that is finished at the third request. *)
Lemma exactly_one_outcome_witness :
  let x := pollJobUntilComplete (Some App.progressCallback) 3000 600
             Samples.doneAtThird 610 StageMapper.initialSteps in
  (exists o, promise x = Some o) /\
  (forall fuel', (610 <= fuel')%nat ->
     pollJobUntilComplete (Some App.progressCallback) 3000 600
       Samples.doneAtThird fuel' StageMapper.initialSteps = x).
Proof.
  apply (proj2 (exactly_one_outcome 3000 600 Samples.doneAtThird
                  StageMapper.initialSteps)
           (Some StageMapper.handleProgress) 610%nat).
  unfold maxConsecutiveErrors. lia.
Defined.

End PollFacts.

(** ** The stage mapper driven by a session *)

Module AppFacts.

Import ProcessingStep StageMapper Poll App.
Import StageMapperFacts PollFacts.
Local Open Scope list_scope.

Lemma markAllCompleted_lookup (steps : list Step) (i : nat) :
  markAllCompleted steps !! i = completeOne <$> steps !! i.
Proof. apply list_lookup_fmap. Qed.

Lemma markUnfinishedFailed_lookup (steps : list Step) (i : nat) :
  markUnfinishedFailed steps !! i = abortOne <$> steps !! i.
Proof. apply list_lookup_fmap. Qed.

Lemma markAllCompleted_all (steps : list Step) :
  Forall (fun s => status s = completed) (markAllCompleted steps).
Proof.
  unfold markAllCompleted. induction steps as [|s steps IH]; cbn;
    constructor; [reflexivity | exact IH].
Qed.

Lemma markAllCompleted_ids (steps : list Step) :
  id <$> markAllCompleted steps = id <$> steps.
Proof.
  unfold markAllCompleted. rewrite <- list_fmap_compose.
  apply list_fmap_ext. intros i s _. reflexivity.
Qed.

Lemma handleProgress_ids (js : JobStatus.t) (steps : list Step) :
  id <$> handleProgress js steps = id <$> steps.
Proof.
  rewrite handleProgress_fmap, <- list_fmap_compose.
  apply list_fmap_ext. intros i s _. apply handleProgressOne_id.
Qed.

Lemma detail_or_failed (js : JobStatus.t) :
  Js.strOr (Some (detailOf js)) "Failed"
  = Js.strOr (JobStatus.stage_detail js) "Failed".
Proof.
  unfold detailOf. destruct (JobStatus.stage_detail js) as [[|c d]|]; reflexivity.
Qed.

(** [handleProgress] on a record whose stage token is [failed]. *)
Lemma handleProgressOne_failed (js : JobStatus.t) (s : Step) :
  stageOf js = "failed"%string ->
  handleProgressOne js s = failOne (detailOf js) s.
Proof. intros H. unfold handleProgressOne. rewrite H. reflexivity. Qed.

(** One run of [poll] on a record of a completed job: the promise
    resolves with the record and the callback has run on it. *)
Lemma poll_completed (pollInterval maxAttempts : Z)
    (getJobStatus : nat -> Fetch) (x : Session (list Step))
    (js : JobStatus.t) :
  promise x = None ->
  getJobStatus (Datatypes.S (attempts x)) = fetched js ->
  JobStatus.status js = JobStatus.completed ->
  let x' := poll (Some progressCallback) pollInterval maxAttempts
              getJobStatus x in
  promise x' = Some (resolved js) /\
  timer x' = None /\
  caller x' = handleProgress js (caller x).
Proof.
  intros Hp Hf Hst x'.
  destruct (poll_fetched (Some handleProgress) pollInterval maxAttempts
              getJobStatus x js Hf Hp) as (_ & _ & Hc & Hrest).
  rewrite Hst in Hrest. destruct Hrest as [Hpr Htm].
  change (poll (option_map returning (Some handleProgress)) pollInterval
            maxAttempts getJobStatus x) with x' in *.
  cbn [progressed] in Hc. repeat split; assumption.
Qed.

(** C3, as the code has it. On a status record whose stage token is
    [failed], [handleProgress] turns every active step into an error
    step described by the stage detail, or by "Failed" when there is
    none, and changes no other step. When the record also has
    lifecycle [failed] the promise rejects, and the [catch] block of
    [handleSelectPaper] then turns the steps still pending into error
    steps as well, keeping their descriptions; completed steps and
    earlier error steps stay as they are. *)
Theorem failed_snapshot (pollInterval maxAttempts : Z)
    (getJobStatus : nat -> Fetch) (x : Session (list Step))
    (js : JobStatus.t) (i : nat) (s : Step) :
  stageOf js = "failed"%string ->
  caller x !! i = Some s ->
  (exists s',
     handleProgress js (caller x) !! i = Some s' /\
     match status s with
     | active =>
         s' = mk (id s) (title s)
                (Js.strOr (JobStatus.stage_detail js) "Failed") error
     | _ => s' = s
     end) /\
  (promise x = None ->
   getJobStatus (Datatypes.S (attempts x)) = fetched js ->
   JobStatus.status js = JobStatus.failed ->
   let x' := poll (Some progressCallback) pollInterval maxAttempts
               getJobStatus x in
   let m := Js.strOr (JobStatus.error js) "Job failed" in
   promise x' = Some (rejected m) /\
   exists s',
     afterPoll (rejected m) (caller x') !! i = Some s' /\
     match status s with
     | active =>
         s' = mk (id s) (title s)
                (Js.strOr (JobStatus.stage_detail js) "Failed") error
     | pending => s' = mk (id s) (title s) (description s) error
     | _ => s' = s
     end).
Proof.
  intros Hstage Hi.
  assert (Hone : handleProgress js (caller x) !! i
                 = Some (failOne (detailOf js) s)).
  { rewrite handleProgress_lookup, Hi. cbn.
    rewrite handleProgressOne_failed by exact Hstage. reflexivity. }
  split.
  - exists (failOne (detailOf js) s). split; [exact Hone |].
    unfold failOne. rewrite detail_or_failed.
    destruct s as [i0 t d st]; destruct st; reflexivity.
  - intros Hp Hf Hst x' m.
    destruct (poll_fetched (Some handleProgress) pollInterval maxAttempts
                getJobStatus x js Hf Hp) as (_ & _ & Hc & Hrest).
    rewrite Hst in Hrest. destruct Hrest as [Hpr _].
    change (poll (option_map returning (Some handleProgress)) pollInterval
              maxAttempts getJobStatus x) with x' in *.
    cbn [progressed] in Hc.
    split; [exact Hpr |].
    exists (abortOne (failOne (detailOf js) s)). split.
    + cbn [afterPoll]. rewrite markUnfinishedFailed_lookup, Hc, Hone.
      reflexivity.
    + unfold failOne, abortOne. rewrite detail_or_failed.
      destruct s as [i0 t d st]; destruct st; reflexivity.
Qed.

(** C3, on a job that fails while the introduction is extracted: the
    active step and the two pending ones. *)
Lemma failed_snapshot_witness :
  let x' := poll (Some progressCallback) 3000 600
              (fun _ => fetched Samples.jobFailed)
              (Samples.midSession Samples.whileExtracting) in
  (handleProgress Samples.jobFailed Samples.whileExtracting !! 1%nat
     = Some (mk "extract" "Extracting" "Failed" error) /\
   handleProgress Samples.jobFailed Samples.whileExtracting !! 2%nat
     = Some (mk "segment" "Segmenting" "Breaking down..." pending)) /\
  promise x' = Some (rejected "render crashed") /\
  afterPoll (rejected "render crashed") (caller x') !! 1%nat
    = Some (mk "extract" "Extracting" "Failed" error) /\
  afterPoll (rejected "render crashed") (caller x') !! 2%nat
    = Some (mk "segment" "Segmenting" "Breaking down..." error).
Proof.
  pose proof (failed_snapshot 3000 600 (fun _ => fetched Samples.jobFailed)
                (Samples.midSession Samples.whileExtracting)
                Samples.jobFailed 1
                (mk "extract" "Extracting" "Analyzing content..." active)
                eq_refl eq_refl) as (Ha & Hb).
  pose proof (failed_snapshot 3000 600 (fun _ => fetched Samples.jobFailed)
                (Samples.midSession Samples.whileExtracting)
                Samples.jobFailed 2
                (mk "segment" "Segmenting" "Breaking down..." pending)
                eq_refl eq_refl) as (Hc & Hd).
  destruct Ha as (s1 & Hs1 & ->). destruct Hc as (s2 & Hs2 & ->).
  destruct (Hb eq_refl eq_refl eq_refl) as (Hpr & t1 & Ht1 & ->).
  destruct (Hd eq_refl eq_refl eq_refl) as (_ & t2 & Ht2 & ->).
  repeat split; assumption.
Defined.

(** C3 as stated fails. The steps show one active step. A record
    with lifecycle and stage token [failed] rejects the promise, and
    after the [catch] block the two steps that were pending are error
    steps. A record with lifecycle [failed] and no stage token leaves
    the active step active in [handleProgress]. *)
Lemma pending_steps_fail_with_the_job :
  countActive Samples.whileExtracting = 1%nat /\
  status <$> Samples.whileExtracting
    = [completed; active; pending; pending] /\
  JobStatus.status Samples.jobFailed = JobStatus.failed /\
  (let x' := poll (Some progressCallback) 3000 600
               (fun _ => fetched Samples.jobFailed)
               (Samples.midSession Samples.whileExtracting) in
   promise x' = Some (rejected "render crashed") /\
   status <$> afterPoll (rejected "render crashed") (caller x')
     = [completed; error; error; error]) /\
  JobStatus.status Samples.jobFailedNoStage = JobStatus.failed /\
  status <$> handleProgress Samples.jobFailedNoStage Samples.whileExtracting
    = [completed; active; pending; pending].
Proof. repeat split; reflexivity. Qed.

(** Two complete runs of [handleSelectPaper]. *)
Example handleSelectPaper_done :
  handleSelectPaper (inl "job-1"%string) Samples.doneAtThird 5 initialSteps
  = ([ mk "fetch" "Fetching Paper" "Paper downloaded" completed;
       mk "extract" "Extracting" "Analyzing content..." completed;
       mk "segment" "Segmenting" "Segments created" completed;
       mk "animate" "Animating" "Rendering animations... 100%" completed ],
     None).
Proof. reflexivity. Qed.

Example handleSelectPaper_connection_lost :
  handleSelectPaper (inl "job-1"%string) Samples.alwaysFailing 20 initialSteps
  = ([ mk "fetch" "Fetching Paper" "Job started, fetching paper..." error;
       mk "extract" "Extracting" "Analyzing..." error;
       mk "segment" "Segmenting" "Breaking down..." error;
       mk "animate" "Animating" "Creating visuals..." error ],
     Some "Connection lost after 10 retries: Network Error"%string).
Proof. reflexivity. Qed.

End AppFacts.

(** ** What the step list displays *)

Module ViewFacts.

Import ProcessingStep StageMapper App View.
Import StageMapperFacts.
Local Open Scope list_scope.

Lemma handleProgressOne_error (js : JobStatus.t) (s : Step) :
  stageOf js <> "failed"%string ->
  status (handleProgressOne js s) = error -> status s = error.
Proof.
  unfold handleProgressOne. intros Hnf.
  stage_cases; destruct s as [i t d st]; id_cases;
    cbn [completeOne status]; try congruence.
  match goal with
  | H : String.eqb (stageOf js) "failed" = true |- _ =>
      apply String.eqb_eq in H; contradiction
  end.
Qed.

(** X1. A status record whose stage token is not [failed] never makes
    the list show an error that was not there before. *)
Theorem handleProgress_no_new_error (js : JobStatus.t) (steps : list Step) :
  stageOf js <> "failed"%string ->
  hasError (handleProgress js steps) = true ->
  hasError steps = true.
Proof.
  intros Hnf. unfold hasError. rewrite handleProgress_fmap, !existsb_exists.
  intros (s' & Hin & Hs'). apply List.in_map_iff in Hin.
  destruct Hin as (s & <- & Hin). exists s. split; [exact Hin |].
  assert (H : status (handleProgressOne js s) = error)
    by (destruct (status (handleProgressOne js s)); (discriminate || reflexivity)).
  rewrite (handleProgressOne_error js s Hnf H). reflexivity.
Qed.

Lemma handleProgress_no_new_error_witness :
  hasError (markActiveFailed "x" Samples.whileExtracting) = true.
Proof.
  apply (handleProgress_no_new_error Samples.jobFailedNoStage
           (markActiveFailed "x" Samples.whileExtracting)).
  - vm_compute. discriminate.
  - reflexivity.
Defined.

(** X2. On the four-step pipeline the banner follows the latest
    status record: whatever the steps showed before, after a record
    that puts a step in progress that step is the active one shown,
    every step before it is completed, and the banner carries its
    label from [stepLabels]. *)
Theorem banner_follows_snapshot (js : JobStatus.t) (steps : list Step)
    (k : string) :
  id <$> steps = ["fetch"; "extract"; "segment"; "animate"]%string ->
  activatedBy js = Some k ->
  exists before s after,
    handleProgress js steps = before ++ s :: after /\
    Forall (fun p => status p = completed) before /\
    id s = k /\ status s = active /\
    activeStep (handleProgress js steps) = Some s /\
    bannerLabel (handleProgress js steps)
      = option_map StepLabels.active (lookupLabels k).
Proof.
  intros Hids.
  destruct steps as [|[i1 t1 d1 st1] [|[i2 t2 d2 st2] [|[i3 t3 d3 st3]
                     [|[i4 t4 d4 st4] [|]]]]]; try discriminate Hids.
  cbn in Hids. injection Hids as -> -> -> ->.
  unfold activatedBy, handleProgress, updateStep.
  stage_cases; intros Hact; try discriminate Hact; injection Hact as <-;
    cbn [fmap list_fmap]; rewrite ?updateOne_mk;
    cbn [String.eqb Ascii.eqb Bool.eqb]; rewrite ?updateOne_mk;
    cbn [String.eqb Ascii.eqb Bool.eqb]; rewrite ?updateOne_mk;
    cbn [String.eqb Ascii.eqb Bool.eqb]; rewrite ?updateOne_mk;
    cbn [String.eqb Ascii.eqb Bool.eqb].
  - exists [], (mk "fetch" t1 (Js.strOr (Some "Queued, waiting to start...") d1)
                  active), [mk "extract" t2 d2 st2; mk "segment" t3 d3 st3;
                            mk "animate" t4 d4 st4].
    repeat split; constructor.
  - eexists [], _, _. split; [reflexivity |]. repeat split; constructor.
  - eexists [_], _, _. split; [reflexivity |].
    repeat split; repeat constructor.
  - eexists [_; _], _, _. split; [reflexivity |].
    repeat split; repeat constructor.
  - eexists [_; _; _], _, _. split; [reflexivity |].
    repeat split; repeat constructor.
Qed.

(** X2, on the steps shown during extraction and a record of the
    segmenting stage. *)
Lemma banner_follows_snapshot_witness :
  activeStep (handleProgress Samples.segmenting Samples.whileExtracting)
    = Some (mk "segment" "Segmenting" "Breaking into topics..." active) /\
  bannerLabel (handleProgress Samples.segmenting Samples.whileExtracting)
    = Some "Segmenting Topics"%string.
Proof.
  destruct (banner_follows_snapshot Samples.segmenting Samples.whileExtracting
              "segment" eq_refl eq_refl)
    as (before & s & after & _ & _ & _ & _ & Ha & Hb).
  split; [| exact Hb].
  rewrite Ha. injection Ha as <-. reflexivity.
Defined.

(** X3. Once every step is marked completed, as after a resolved
    session, the list shows all of them complete: the count equals the
    number of steps, there is no banner and no error, and the heading
    reads "n/n complete". *)
Theorem completed_view (steps : list Step) :
  completedCount (markAllCompleted steps) = length steps /\
  activeStep (markAllCompleted steps) = None /\
  hasError (markAllCompleted steps) = false /\
  headerText (markAllCompleted steps)
    = (Js.showN (N.of_nat (length steps)) ++ "/"
       ++ Js.showN (N.of_nat (length steps)) ++ " complete")%string.
Proof.
  assert (H : completedCount (markAllCompleted steps) = length steps /\
              activeStep (markAllCompleted steps) = None /\
              hasError (markAllCompleted steps) = false).
  { unfold completedCount, activeStep, hasError, markAllCompleted.
    induction steps as [|s steps (IH1 & IH2 & IH3)]; cbn; [auto |].
    rewrite IH1, IH2, IH3. auto. }
  destruct H as (H1 & H2 & H3). repeat split; try assumption.
  unfold headerText. rewrite H3, H1.
  unfold markAllCompleted. rewrite length_fmap. reflexivity.
Qed.

(** X4. After the [catch] block of [handleSelectPaper] there is no
    banner, the completed count is what it was, and the list shows an
    error exactly when some step was not completed: a run that is
    rejected with every step already completed shows no error in the
    step list. *)
Theorem rejected_view (steps : list Step) :
  activeStep (markUnfinishedFailed steps) = None /\
  completedCount (markUnfinishedFailed steps) = completedCount steps /\
  (hasError (markUnfinishedFailed steps) = false <->
   Forall (fun s => status s = completed) steps).
Proof.
  unfold activeStep, completedCount, hasError, markUnfinishedFailed.
  induction steps as [|[i t d st] steps (IH1 & IH2 & IH3)]; cbn.
  - repeat split; auto.
  - destruct st; cbn; rewrite ?IH1, ?IH2; repeat split; auto;
      try discriminate;
      try (intros H; inversion H; subst; cbn in *; discriminate).
    + intros H. constructor; [reflexivity | apply IH3, H].
    + intros H. inversion H; subst. apply IH3. assumption.
Qed.

End ViewFacts.

(** ** Complete runs of [handleSelectPaper] *)

Module RunFacts.

Import ProcessingStep StageMapper Poll App View.
Import StageMapperFacts PollFacts AppFacts ViewFacts.
Local Open Scope list_scope.

(** Whatever [handleProgress] preserves holds of the steps all along
    a session. *)
Lemma poll_caller (P : list Step -> Prop) (pollInterval maxAttempts : Z)
    (getJobStatus : nat -> Fetch) (x : Session (list Step)) :
  (forall js steps, P steps -> P (handleProgress js steps)) ->
  P (caller x) ->
  P (caller (poll (Some progressCallback) pollInterval maxAttempts
               getJobStatus x)).
Proof.
  intros HP. destruct x as [a ce c tm pr lg]. cbn [caller]. intros Hc.
  unfold poll, onCatch, callProgress, settle, setTimeout, emit,
    progressCallback, returning.
  cbn [attempts consecutiveErrors caller timer promise log].
  repeat match goal with
         | |- context [match ?t with _ => _ end] =>
             destruct t;
             cbn [attempts consecutiveErrors caller timer promise log]
         end; auto.
Qed.

Lemma runTimers_caller (P : list Step -> Prop) (pollInterval maxAttempts : Z)
    (getJobStatus : nat -> Fetch) (fuel : nat) :
  (forall js steps, P steps -> P (handleProgress js steps)) ->
  forall x : Session (list Step),
    P (caller x) ->
    P (caller (runTimers (Some progressCallback) pollInterval maxAttempts
                 getJobStatus fuel x)).
Proof.
  intros HP. induction fuel as [|fuel IH]; intros x Hx; cbn; [exact Hx |].
  destruct (timer x); [| exact Hx]. apply IH, poll_caller; assumption.
Qed.

Lemma pollJobUntilComplete_caller (P : list Step -> Prop)
    (pollInterval maxAttempts : Z) (getJobStatus : nat -> Fetch)
    (fuel : nat) (steps : list Step) :
  (forall js steps, P steps -> P (handleProgress js steps)) ->
  P steps ->
  P (caller (pollJobUntilComplete (Some progressCallback) pollInterval
               maxAttempts getJobStatus fuel steps)).
Proof.
  intros HP Hs. unfold pollJobUntilComplete.
  apply runTimers_caller; [exact HP |]. apply poll_caller; assumption.
Qed.

Lemma handleProgressOne_title (js : JobStatus.t) (s : Step) :
  title (handleProgressOne js s) = title s.
Proof.
  unfold handleProgressOne.
  stage_cases; destruct s as [i t d st]; id_cases; try reflexivity.
  unfold failOne; destruct st; reflexivity.
Qed.

(** The identifier and the title of a step, the part no updater touches. *)
Lemma handleProgress_names (js : JobStatus.t) (steps : list Step) :
  (fun s => (id s, title s)) <$> handleProgress js steps
  = (fun s => (id s, title s)) <$> steps.
Proof.
  rewrite handleProgress_fmap, <- list_fmap_compose.
  apply list_fmap_ext. intros i s _. cbn.
  rewrite handleProgressOne_id, handleProgressOne_title. reflexivity.
Qed.

Lemma fmap_names (f : Step -> Step) (steps : list Step) :
  (forall s, id (f s) = id s /\ title (f s) = title s) ->
  (fun s => (id s, title s)) <$> (f <$> steps)
  = (fun s => (id s, title s)) <$> steps.
Proof.
  intros Hf. rewrite <- list_fmap_compose. apply list_fmap_ext.
  intros i s _. cbn. destruct (Hf s) as [-> ->]. reflexivity.
Qed.

Lemma updateStep_names (k : string) (st : Status) (d : option string)
    (steps : list Step) :
  (fun s => (id s, title s)) <$> updateStep k st d steps
  = (fun s => (id s, title s)) <$> steps.
Proof.
  apply fmap_names. intros s. unfold updateOne.
  destruct (String.eqb (id s) k); auto.
Qed.

Lemma afterPoll_names (o : Outcome) (steps : list Step) :
  (fun s => (id s, title s)) <$> afterPoll o steps
  = (fun s => (id s, title s)) <$> steps.
Proof.
  destruct o; apply fmap_names; intros s; unfold abortOne; cbn; auto.
  destruct (Status_eqb (status s) active || Status_eqb (status s) pending); auto.
Qed.

(** X5. A run of [handleSelectPaper] never adds, drops, reorders or
    renames a step: whatever the submission and the endpoint do and
    however long the run lasts, the identifiers and titles of the
    steps are those it started with, in the same order. *)
Theorem handleSelectPaper_keeps_steps
    (startAsyncProcess : string + Thrown) (getJobStatus : nat -> Fetch)
    (fuel : nat) (steps : list Step) :
  (fun s => (id s, title s))
    <$> fst (handleSelectPaper startAsyncProcess getJobStatus fuel steps)
  = (fun s => (id s, title s)) <$> steps.
Proof.
  assert (Hreset : (fun s => (id s, title s)) <$> (resetOne <$> steps)
                   = (fun s => (id s, title s)) <$> steps)
    by (apply fmap_names; intros s; cbn; auto).
  unfold handleSelectPaper. destruct startAsyncProcess as [job|err].
  - set (x := pollJobUntilComplete _ _ _ _ _ _).
    assert (Hx : (fun s => (id s, title s)) <$> caller x
                 = (fun s => (id s, title s)) <$> steps).
    { subst x.
      apply (pollJobUntilComplete_caller
               (fun st => (fun s => (id s, title s)) <$> st
                          = (fun s => (id s, title s)) <$> steps)).
      - intros js st Hst. rewrite handleProgress_names. exact Hst.
      - rewrite !updateStep_names. exact Hreset. }
    destruct (promise x) as [[js|m]|]; cbn [fst];
      rewrite ?afterPoll_names; exact Hx.
  - cbn [fst]. unfold markUnfinishedFailed.
    rewrite (afterPoll_names (rejected "") _ : _ <$> (abortOne <$> _) = _).
    rewrite updateStep_names. exact Hreset.
Qed.





(** X12. A run of [handleSelectPaper] starts from the identifiers,
    titles and descriptions of the steps only: the statuses left by an
    earlier run, errors included, have no effect on it, while the
    descriptions it left are kept until a status record overwrites
    them. *)
Theorem handleSelectPaper_forgets_statuses
    (startAsyncProcess : string + Thrown) (getJobStatus : nat -> Fetch)
    (fuel : nat) (steps steps' : list Step) :
  Forall2 (fun a b => id a = id b /\ title a = title b /\
                      description a = description b) steps steps' ->
  handleSelectPaper startAsyncProcess getJobStatus fuel steps
  = handleSelectPaper startAsyncProcess getJobStatus fuel steps'.
Proof.
  intros H.
  assert (Hreset : resetOne <$> steps = resetOne <$> steps').
  { induction H as [|a b l l' (Hi & Ht & Hd) _ IH]; cbn; [reflexivity |].
    rewrite IH. unfold resetOne. rewrite Hi, Ht, Hd. reflexivity. }
  unfold handleSelectPaper. rewrite Hreset. reflexivity.
Qed.

(** X12, on the steps left by a failed run. *)
Lemma handleSelectPaper_forgets_statuses_witness :
  handleSelectPaper (inl "job-1"%string) Samples.doneAtThird 5
    Samples.whileExtracting
  = handleSelectPaper (inl "job-1"%string) Samples.doneAtThird 5
      (markUnfinishedFailed Samples.whileExtracting).
Proof.
  apply (handleSelectPaper_forgets_statuses (inl "job-1"%string)
           Samples.doneAtThird 5 Samples.whileExtracting
           (markUnfinishedFailed Samples.whileExtracting)).
  repeat constructor.
Defined.

End RunFacts.

(** ** The videos of a finished job *)

Module VideosFacts.

Import Videos.
Local Open Scope list_scope.

Lemma to_uint_nonnil (n : N) : N.to_uint n <> Decimal.Nil.
Proof.
  destruct n as [|p]; [discriminate |].
  apply DecimalPos.Unsigned.to_uint_nonnil.
Qed.

(** The decimal rendering of a number determines the number. *)
Lemma showN_inj (n m : N) : Js.showN n = Js.showN m -> n = m.
Proof.
  unfold Js.showN. intros H.
  apply (f_equal NilZero.uint_of_string) in H.
  rewrite !NilZero.usu in H by apply to_uint_nonnil.
  injection H as H. apply DecimalN.Unsigned.to_uint_inj, H.
Qed.

Lemma append_inj_r (p a b : string) :
  (p ++ a)%string = (p ++ b)%string -> a = b.
Proof. induction p as [|c p IH]; cbn; [auto |]. intros [= H]. auto. Qed.

(** X7. The videos of a finished job get pairwise different
    [video_id]s, the keys of the players in the completed view, and
    there is one [VideoInfo] per video of the job, none when the job
    reports no [videos] field. *)
Theorem video_ids_distinct (job_id : string) (paper : option (string * string))
    (videos : option (list JobVideo.t)) :
  NoDup (VideoInfo.video_id <$> toVideoInfos job_id paper videos) /\
  length (toVideoInfos job_id paper videos) = length (default [] videos) /\
  (videos = None -> toVideoInfos job_id paper videos = []).
Proof.
  split; [| split].
  - apply NoDup_alt. intros i j k Hi Hj.
    unfold toVideoInfos in Hi, Hj.
    rewrite list_lookup_fmap, list_lookup_imap in Hi, Hj.
    destruct (default [] videos !! i) as [vi|]; [| discriminate Hi].
    destruct (default [] videos !! j) as [vj|]; [| discriminate Hj].
    cbn in Hi, Hj. injection Hi as Hi. injection Hj as Hj.
    rewrite <- Hj in Hi. clear Hj.
    injection Hi as Hi. apply append_inj_r in Hi. injection Hi as Hi.
    apply showN_inj in Hi. lia.
  - unfold toVideoInfos. apply length_imap.
  - intros ->. reflexivity.
Qed.

(** X8. The player of a job video is always titled by the animation
    type that [handleSelectPaper] gave it: "Full Introduction" for a
    video of type [full], else its topic, else "Segment n" with n
    counted from 1. The fall-backs of the completed view, the topic of
    the segment at that index and "Animation n", are never used. *)
Theorem video_title_is_animation_type (job_id : string)
    (paper : option (string * string)) (videos : option (list JobVideo.t))
    (segments : list string) (i : nat) (v : JobVideo.t) :
  default [] videos !! i = Some v ->
  exists info,
    toVideoInfos job_id paper videos !! i = Some info /\
    videoTitle segments i info =
      (if String.eqb (JobVideo.type v) "full" then "Full Introduction"
       else Js.strOr (JobVideo.topic v)
              ("Segment " ++ Js.showN (N.of_nat (i + 1))))%string.
Proof.
  intros Hv. exists (toVideoInfo job_id paper i v). split.
  - unfold toVideoInfos. rewrite list_lookup_imap, Hv. reflexivity.
  - unfold videoTitle, toVideoInfo. cbn [VideoInfo.animation_type].
    destruct (String.eqb (JobVideo.type v) "full"); [reflexivity |].
    destruct (JobVideo.topic v) as [[|c t]|]; reflexivity.
Qed.

(** X8, on a job with a full video and an untitled segment. *)
Lemma video_title_is_animation_type_witness :
  exists info,
    toVideoInfos "job-1" None
      (Some [JobVideo.mk "u0" "d0" "full" None None;
             JobVideo.mk "u1" "d1" "segment" None (Some 0%N)]) !! 1%nat
      = Some info /\
    videoTitle ["Attention"%string] 1 info = "Segment 2"%string.
Proof.
  apply (video_title_is_animation_type "job-1" None
           (Some [JobVideo.mk "u0" "d0" "full" None None;
                  JobVideo.mk "u1" "d1" "segment" None (Some 0%N)])
           ["Attention"%string] 1
           (JobVideo.mk "u1" "d1" "segment" None (Some 0%N))).
  reflexivity.
Defined.

End VideosFacts.

(** ** The test for an arXiv identifier *)

Module RegexFacts.

Import Regex.
Local Open Scope string_scope.

Lemma append_nil_r (s : string) : s ++ "" = s.
Proof. induction s as [|c s IH]; cbn; [| rewrite IH]; reflexivity. Qed.

Lemma append_assoc (a b c : string) : (a ++ b) ++ c = a ++ b ++ c.
Proof. induction a as [|x a IH]; cbn; [| rewrite IH]; reflexivity. Qed.

Lemma append_eq_nil (a b : string) : a ++ b = "" -> a = "" /\ b = "".
Proof. destruct a; cbn; [auto | discriminate]. Qed.

Lemma nullable_iff (r : t) : nullable r = true <-> Matches r "".
Proof.
  induction r as [| |p|r1 IH1 r2 IH2|r1 IH1 r2 IH2|r IH]; cbn.
  - split; [discriminate | intros H; inversion H].
  - split; [constructor | reflexivity].
  - split; [discriminate | intros H; inversion H].
  - rewrite andb_true_iff, IH1, IH2. split.
    + intros [H1 H2]. apply (matchesCat _ _ "" ""); assumption.
    + intros H. inversion H as [| |? ? s1 s2 H1 H2 Hr Hs| | | |]; subst.
      apply append_eq_nil in Hs. destruct Hs as [-> ->]. auto.
  - rewrite orb_true_iff, IH1, IH2. split.
    + intros [H|H]; [apply matchesAltL | apply matchesAltR]; exact H.
    + intros H. inversion H; subst; auto.
  - split; [constructor | reflexivity].
Qed.

(** A match of [star r] on a string that starts with [c] begins with a
    match of [r] on a string that starts with [c]. *)
Lemma star_cons (r : t) (s : string) :
  Matches (star r) s ->
  forall c s', s = String c s' ->
  exists s1 s2, s' = s1 ++ s2 /\ Matches r (String c s1) /\
                Matches (star r) s2.
Proof.
  intros H. remember (star r) as q eqn:Hq.
  induction H as [| | | | | |r0 s1 s2 H1 _ H2 IH2]; try discriminate Hq.
  - intros c s' Hs. discriminate Hs.
  - injection Hq as ->. intros c s' Hs.
    destruct s1 as [|d s1]; cbn in Hs.
    + apply (IH2 eq_refl c s' Hs).
    + injection Hs as -> <-. exists s1, s2. auto.
Qed.

Lemma deriv_iff (r : t) :
  forall c s, Matches (deriv c r) s <-> Matches r (String c s).
Proof.
  induction r as [| |p|r1 IH1 r2 IH2|r1 IH1 r2 IH2|r IH]; intros c s; cbn.
  - split; intros H; inversion H.
  - split; intros H; inversion H.
  - destruct (p c) eqn:Hp; split; intros H; inversion H; subst.
    + constructor. exact Hp.
    + constructor.
    + congruence.
  - assert (Hcat : Matches (cat (deriv c r1) r2) s ->
                   Matches (cat r1 r2) (String c s)).
    { intros H. inversion H as [| |? ? s1 s2 H1 H2 Hr Hs| | | |]; subst.
      apply IH1 in H1. apply (matchesCat _ _ (String c s1) s2); assumption. }
    assert (Hback : Matches (cat r1 r2) (String c s) ->
                    Matches (cat (deriv c r1) r2) s \/
                    (Matches r1 "" /\ Matches (deriv c r2) s)).
    { intros H. inversion H as [| |? ? s1 s2 H1 H2 Hr Hs| | | |]; subst.
      destruct s1 as [|d s1]; cbn in Hs.
      - subst s2. right. split; [exact H1 | apply IH2, H2].
      - injection Hs as -> <-. left. constructor; [apply IH1, H1 | exact H2]. }
    destruct (nullable r1) eqn:Hn.
    + split.
      * intros H. inversion H; subst; [auto |].
        apply (matchesCat _ _ "" (String c s));
          [apply nullable_iff, Hn | apply IH2; assumption].
      * intros H. destruct (Hback H) as [H'|[_ H']];
          [apply matchesAltL | apply matchesAltR]; exact H'.
    + split; [exact Hcat |].
      intros H. destruct (Hback H) as [H'|[H' _]]; [exact H' |].
      apply nullable_iff in H'. congruence.
  - split; intros H; inversion H; subst.
    + apply matchesAltL, IH1. assumption.
    + apply matchesAltR, IH2. assumption.
    + apply matchesAltL, IH1. assumption.
    + apply matchesAltR, IH2. assumption.
  - split.
    + intros H. inversion H as [| |? ? s1 s2 H1 H2 Hr Hs| | | |]; subst.
      apply IH in H1. apply (matchesStarCons _ (String c s1) s2); assumption.
    + intros H.
      destruct (star_cons r _ H c s eq_refl) as (s1 & s2 & -> & H1 & H2).
      constructor; [apply IH, H1 | exact H2].
Qed.

(** The matcher decides the language of the pattern. *)
Lemma test_iff (r : t) (s : string) : test r s = true <-> Matches r s.
Proof.
  revert r. induction s as [|c s IH]; intros r; cbn.
  - apply nullable_iff.
  - rewrite IH. apply deriv_iff.
Qed.

Lemma cat_inv (r1 r2 : t) (s : string) :
  Matches (cat r1 r2) s ->
  exists s1 s2, s = s1 ++ s2 /\ Matches r1 s1 /\ Matches r2 s2.
Proof. intros H. inversion H; subst. eauto. Qed.

Lemma chr_inv (p : ascii -> bool) (s : string) :
  Matches (chr p) s -> exists c, s = String c "" /\ p c = true.
Proof. intros H. inversion H; subst. eauto. Qed.

Lemma opt_inv (r : t) (s : string) :
  Matches (opt r) s -> s = "" \/ Matches r s.
Proof.
  intros H. inversion H as [| | |? ? ? H1|? ? ? H1| |]; subst; [| auto].
  inversion H1. auto.
Qed.

Lemma allDigits_app (a b : string) :
  allDigits (a ++ b) = allDigits a && allDigits b.
Proof.
  induction a as [|c a IH]; cbn; [reflexivity |].
  rewrite IH, andb_assoc. reflexivity.
Qed.

Lemma length_append (a b : string) :
  String.length (a ++ b) = (String.length a + String.length b)%nat.
Proof. induction a as [|c a IH]; cbn; [| rewrite IH]; reflexivity. Qed.

Lemma times_digit (n : nat) :
  forall s, Matches (times n digit) s <->
            allDigits s = true /\ String.length s = n.
Proof.
  induction n as [|n IH]; intros s; cbn [times].
  - split.
    + intros H. inversion H. auto.
    + intros [_ H]. destruct s; [constructor | discriminate H].
  - split.
    + intros H. apply cat_inv in H as (s1 & s2 & -> & H1 & H2).
      apply chr_inv in H1 as (c & -> & Hc). apply IH in H2 as [Hd Hl].
      cbn. rewrite Hc, Hd, Hl. auto.
    + intros [Hd Hl]. destruct s as [|c s]; [discriminate Hl |].
      cbn in Hd, Hl. apply andb_true_iff in Hd as [Hc Hd].
      apply (matchesCat _ _ (String c "") s).
      * constructor. exact Hc.
      * apply IH. split; [exact Hd | lia].
Qed.

Lemma star_digit (s : string) :
  Matches (star digit) s <-> allDigits s = true.
Proof.
  split.
  - intros H. remember (star digit) as q eqn:Hq.
    induction H as [| | | | | |r s1 s2 H1 _ H2 IH2]; try discriminate Hq.
    + reflexivity.
    + injection Hq as ->. apply chr_inv in H1 as (c & -> & Hc).
      cbn. rewrite Hc. apply IH2. reflexivity.
  - induction s as [|c s IH]; cbn; [constructor |].
    intros H. apply andb_true_iff in H as [Hc Hs].
    apply (matchesStarCons _ (String c "") s); [constructor; exact Hc | auto].
Qed.

(** X9. A query is taken for an arXiv identifier, and sent to
    processing without a search, exactly when it consists of four
    digits, a dot, four or five digits and, optionally, the letter v
    followed by at least one digit, with nothing before or after. *)
Theorem isArxivId_iff (query : string) :
  Search.isArxivId query = true <->
  exists a b v,
    query = a ++ "." ++ b ++ v /\
    allDigits a = true /\ String.length a = 4%nat /\
    allDigits b = true /\
    (String.length b = 4%nat \/ String.length b = 5%nat) /\
    (v = "" \/ exists n, v = "v" ++ n /\ allDigits n = true /\ n <> "").
Proof.
  unfold Search.isArxivId, Search.arxivIdPattern. rewrite test_iff. split.
  - intros H.
    apply cat_inv in H as (a & r1 & -> & Ha & H).
    apply cat_inv in H as (d & r2 & -> & Hd & H).
    apply cat_inv in H as (b & v & -> & Hb & Hv).
    apply cat_inv in Hb as (b4 & b5 & -> & Hb4 & Hb5).
    apply times_digit in Ha as [Ha1 Ha2].
    apply times_digit in Hb4 as [Hb1 Hb2].
    apply chr_inv in Hd as (c & -> & Hc).
    apply Ascii.eqb_eq in Hc. subst c.
    exists a, (b4 ++ b5), v. split; [reflexivity |].
    split; [exact Ha1 |]. split; [exact Ha2 |].
    rewrite allDigits_app, length_append, Hb1, Hb2.
    apply opt_inv in Hb5 as [->|Hb5].
    + split; [reflexivity |]. split; [left; reflexivity |].
      apply opt_inv in Hv as [->|Hv]; [left; reflexivity | right].
      apply cat_inv in Hv as (v1 & n & -> & Hv1 & Hn).
      apply chr_inv in Hv1 as (c & -> & Hc).
      apply Ascii.eqb_eq in Hc. subst c.
      apply cat_inv in Hn as (n1 & n2 & -> & Hn1 & Hn2).
      apply chr_inv in Hn1 as (c & -> & Hc). apply star_digit in Hn2.
      exists (String c "" ++ n2). cbn. rewrite Hc, Hn2.
      split; [reflexivity |]. split; [reflexivity | discriminate].
    + apply chr_inv in Hb5 as (c5 & -> & Hc5). cbn. rewrite Hc5.
      split; [reflexivity |]. split; [right; reflexivity |].
      apply opt_inv in Hv as [->|Hv]; [left; reflexivity | right].
      apply cat_inv in Hv as (v1 & n & -> & Hv1 & Hn).
      apply chr_inv in Hv1 as (c & -> & Hc).
      apply Ascii.eqb_eq in Hc. subst c.
      apply cat_inv in Hn as (n1 & n2 & -> & Hn1 & Hn2).
      apply chr_inv in Hn1 as (c & -> & Hc). apply star_digit in Hn2.
      exists (String c "" ++ n2). cbn. rewrite Hc, Hn2.
      split; [reflexivity |]. split; [reflexivity | discriminate].
  - intros (a & b & v & -> & Ha1 & Ha2 & Hb1 & Hb2 & Hv).
    constructor; [apply times_digit; auto |].
    apply (matchesCat _ _ "." (b ++ v)); [constructor; reflexivity |].
    constructor.
    + destruct b as [|c1 [|c2 [|c3 [|c4 b5]]]];
        try (destruct Hb2 as [Hb2|Hb2]; discriminate Hb2).
      change (String c1 (String c2 (String c3 (String c4 b5))))
        with (String c1 (String c2 (String c3 (String c4 ""))) ++ b5) in *.
      rewrite allDigits_app in Hb1. apply andb_true_iff in Hb1 as [H4 H5].
      constructor; [apply times_digit; auto |].
      destruct b5 as [|c5 [|c6 b6]].
      * apply matchesAltL. constructor.
      * apply matchesAltR. constructor. cbn in H5.
        apply andb_true_iff in H5 as [H5 _]. exact H5.
      * destruct Hb2 as [Hb2|Hb2]; cbn in Hb2; lia.
    + destruct Hv as [->|(n & -> & Hn & Hne)].
      * apply matchesAltL. constructor.
      * apply matchesAltR.
        apply (matchesCat _ _ "v" n); [constructor; reflexivity |].
        destruct n as [|c n]; [contradiction |].
        cbn in Hn. apply andb_true_iff in Hn as [Hc Hn].
        apply (matchesCat _ _ (String c "") n);
          [constructor; exact Hc | apply star_digit, Hn].
Qed.

(** X9, on an identifier with a version. *)
Lemma isArxivId_iff_witness : Search.isArxivId "2301.07041v2" = true.
Proof.
  apply (proj2 (isArxivId_iff "2301.07041v2")).
  exists "2301", "07041", "v2". repeat split; try reflexivity.
  - right. reflexivity.
  - right. exists "2". split; [reflexivity |]. split; [reflexivity | discriminate].
Defined.

Example isArxivId_plain : Search.isArxivId "2301.07041" = true.
Proof. reflexivity. Qed.

Example isArxivId_versioned : Search.isArxivId "1706.0376v12" = true.
Proof. reflexivity. Qed.

Example isArxivId_bare_version : Search.isArxivId "2301.07041v" = false.
Proof. reflexivity. Qed.

Example isArxivId_topic : Search.isArxivId "Quantum Computing" = false.
Proof. reflexivity. Qed.

End RegexFacts.

(** ** The stored credential *)

Module ApiFacts.

Import Api.
Local Open Scope list_scope.

Lemma truthy_key (k : string) : k <> ""%string -> truthy (Some k) = true.
Proof. destruct k; [contradiction | reflexivity]. Qed.

Lemma ensureApiKey_stored (create : string + Poll.Thrown) (c : Client)
    (k : string) :
  k <> ""%string ->
  getStoredApiKey c = Some k -> ensureApiKey create c = (inl k, c).
Proof.
  intros Hk. unfold ensureApiKey. intros ->. rewrite (truthy_key k Hk).
  destruct k; [contradiction | reflexivity].
Qed.

Lemma ensureApiKey_stores (create : string + Poll.Thrown) (c : Client)
    (k : string) :
  fst (ensureApiKey create c) = inl k ->
  getStoredApiKey (snd (ensureApiKey create c)) = Some k.
Proof.
  unfold ensureApiKey, getStoredApiKey.
  destruct (storedApiKey c) as [[|a s]|] eqn:Hs; cbn [truthy fst snd].
  - destruct create; cbn; congruence.
  - cbn. congruence.
  - destruct create; cbn; congruence.
Qed.

(** X10. The key is acquired once: when [ensureApiKey] has returned a
    non-empty key, every later call returns that same key and sends
    nothing, whatever the key endpoint would answer; and a client that
    already stores a non-empty key never asks for one. *)
Theorem ensureApiKey_once (create create' : string + Poll.Thrown)
    (c : Client) (k : string) :
  k <> ""%string ->
  (fst (ensureApiKey create c) = inl k ->
   ensureApiKey create' (snd (ensureApiKey create c))
   = (inl k, snd (ensureApiKey create c))) /\
  (getStoredApiKey c = Some k ->
   ensureApiKey create c = (inl k, c)).
Proof.
  intros Hk. split.
  - intros H. apply ensureApiKey_stored; [exact Hk |].
    apply ensureApiKey_stores, H.
  - apply ensureApiKey_stored, Hk.
Qed.

(** X10, on a fresh client. *)
Lemma ensureApiKey_once_witness :
  ensureApiKey (inr Poll.otherValue)
    (snd (ensureApiKey (inl "xe_123"%string) (mkClient None [])))
  = (inl "xe_123"%string,
     mkClient (Some "xe_123"%string)
       [mkRequest "POST" "/api/keys/create" None]).
Proof.
  apply (proj1 (ensureApiKey_once (inl "xe_123"%string) (inr Poll.otherValue)
                  (mkClient None []) "xe_123" ltac:(discriminate))).
  reflexivity.
Defined.



End ApiFacts.

(** ** The grouping of the gallery *)

Module GalleryFacts.

Import Gallery.
Local Open Scope list_scope.

Local Abbreviation keys := (fmap (M := list) PaperGroup.paper_arxiv_id).

(** The update of the group of a key, the last step of [addVideo]. *)
Local Abbreviation update v :=
  (fun g => if String.eqb (PaperGroup.paper_arxiv_id g) (keyOf v)
            then place v g else g).

Lemma place_key (v : GalleryVideo.t) (g : PaperGroup.t) :
  PaperGroup.paper_arxiv_id (place v g) = PaperGroup.paper_arxiv_id g.
Proof. unfold place. destruct (isFullIntroduction v); reflexivity. Qed.

Lemma update_keys (v : GalleryVideo.t) (groups : list PaperGroup.t) :
  keys (update v <$> groups) = keys groups.
Proof.
  rewrite <- list_fmap_compose. apply list_fmap_ext. intros i g _. cbn.
  destruct (String.eqb (PaperGroup.paper_arxiv_id g) (keyOf v));
    [apply place_key | reflexivity].
Qed.

Lemma hasKey_iff (key : string) (groups : list PaperGroup.t) :
  hasKey key groups = true <-> key ∈ keys groups.
Proof.
  unfold hasKey. induction groups as [|g groups IH]; cbn.
  - split; [discriminate | intros H; inversion H].
  - rewrite orb_true_iff, IH, elem_of_cons, String.eqb_eq.
    split; intros [H|H]; auto.
Qed.

Lemma addVideo_keys (groups : list PaperGroup.t) (v : GalleryVideo.t) :
  keys (addVideo groups v)
  = if hasKey (keyOf v) groups then keys groups
    else keys groups ++ [keyOf v].
Proof.
  unfold addVideo. cbn zeta. rewrite update_keys.
  destruct (hasKey (keyOf v) groups); [reflexivity |].
  rewrite fmap_app. reflexivity.
Qed.

Lemma addVideo_NoDup (groups : list PaperGroup.t) (v : GalleryVideo.t) :
  NoDup (keys groups) -> NoDup (keys (addVideo groups v)).
Proof.
  intros H. rewrite addVideo_keys.
  destruct (hasKey (keyOf v) groups) eqn:Hk; [exact H |].
  apply NoDup_app. split; [exact H |]. split; [| apply NoDup_singleton].
  intros k Hin Hk'. apply list_elem_of_singleton in Hk'. subst k.
  apply hasKey_iff in Hin. congruence.
Qed.

Lemma members_place (v : GalleryVideo.t) (g : PaperGroup.t) :
  members (place v g) ≡ₚ v :: members g.
Proof.
  unfold members, place. destruct (isFullIntroduction v); cbn.
  - rewrite <- app_assoc. cbn. symmetry. apply Permutation_middle.
  - rewrite app_assoc. symmetry. apply Permutation_cons_append.
Qed.

Lemma update_absent (v : GalleryVideo.t) (groups : list PaperGroup.t) :
  keyOf v ∉ keys groups -> update v <$> groups = groups.
Proof.
  induction groups as [|g groups IH]; cbn; [reflexivity |].
  rewrite not_elem_of_cons. intros [Hne Hnin].
  destruct (String.eqb_spec (PaperGroup.paper_arxiv_id g) (keyOf v));
    [congruence |].
  rewrite IH by exact Hnin. reflexivity.
Qed.

Lemma allMembers_update (v : GalleryVideo.t) (groups : list PaperGroup.t) :
  NoDup (keys groups) ->
  keyOf v ∈ keys groups ->
  allMembers (update v <$> groups) ≡ₚ v :: allMembers groups.
Proof.
  unfold allMembers.
  induction groups as [|g groups IH]; cbn; intros Hnd Hin.
  - inversion Hin.
  - apply NoDup_cons in Hnd as [Hg Hnd].
    destruct (String.eqb_spec (PaperGroup.paper_arxiv_id g) (keyOf v))
      as [Heq|Hne].
    + rewrite update_absent by (rewrite <- Heq; exact Hg).
      rewrite members_place. reflexivity.
    + apply elem_of_cons in Hin as [Hin|Hin]; [congruence |].
      rewrite (IH Hnd Hin). symmetry. apply Permutation_middle.
Qed.

Lemma allMembers_addVideo (groups : list PaperGroup.t) (v : GalleryVideo.t) :
  NoDup (keys groups) ->
  allMembers (addVideo groups v) ≡ₚ v :: allMembers groups.
Proof.
  intros Hnd. unfold addVideo. cbn zeta.
  destruct (hasKey (keyOf v) groups) eqn:Hk.
  - apply allMembers_update; [exact Hnd | apply hasKey_iff, Hk].
  - rewrite allMembers_update.
    + unfold allMembers. rewrite fmap_app, concat_app. cbn.
      rewrite !app_nil_r. reflexivity.
    + rewrite fmap_app. apply NoDup_app. split; [exact Hnd |].
      split; [| apply NoDup_singleton].
      intros k Hin Hk'. apply list_elem_of_singleton in Hk'. subst k.
      apply hasKey_iff in Hin. cbn in Hin. congruence.
    + rewrite fmap_app. apply elem_of_app. right. constructor.
Qed.

Lemma addVideo_keyed (groups : list PaperGroup.t) (v : GalleryVideo.t) :
  keyed groups -> keyed (addVideo groups v).
Proof.
  intros H. unfold addVideo. cbn zeta.
  assert (Hall : keyed (if hasKey (keyOf v) groups then groups
                        else groups ++ [newGroup v])).
  { destruct (hasKey (keyOf v) groups); [exact H |].
    apply Forall_app. split; [exact H |]. repeat constructor. }
  revert Hall. generalize (if hasKey (keyOf v) groups then groups
                           else groups ++ [newGroup v]).
  intros l Hl. unfold keyed in *. rewrite Forall_fmap.
  eapply Forall_impl; [exact Hl |]. cbn. intros g Hg.
  destruct (String.eqb_spec (PaperGroup.paper_arxiv_id g) (keyOf v))
    as [Heq|_]; [| exact Hg].
  rewrite place_key, (members_place v g).
  constructor; [symmetry; exact Heq | exact Hg].
Qed.

Lemma foldl_addVideo (l : list GalleryVideo.t) :
  forall groups,
    NoDup (keys groups) -> keyed groups ->
    NoDup (keys (foldl addVideo groups l)) /\
    keyed (foldl addVideo groups l) /\
    allMembers (foldl addVideo groups l) ≡ₚ allMembers groups ++ l.
Proof.
  induction l as [|v l IH]; intros groups Hnd Hk; cbn.
  - rewrite app_nil_r. auto.
  - destruct (IH (addVideo groups v) (addVideo_NoDup _ _ Hnd)
                (addVideo_keyed _ _ Hk)) as (H1 & H2 & H3).
    split; [exact H1 |]. split; [exact H2 |].
    rewrite H3, (allMembers_addVideo groups v Hnd).
    cbn. apply Permutation_middle.
Qed.

Lemma insertSegment_perm (v : GalleryVideo.t) (l : list GalleryVideo.t) :
  insertSegment v l ≡ₚ v :: l.
Proof.
  induction l as [|x l IH]; cbn; [reflexivity |].
  destruct (segmentNumber v <=? segmentNumber x)%N; [reflexivity |].
  rewrite IH. apply Permutation_swap.
Qed.

Lemma sortSegments_perm (l : list GalleryVideo.t) : sortSegments l ≡ₚ l.
Proof.
  unfold sortSegments. induction l as [|v l IH]; cbn; [reflexivity |].
  rewrite insertSegment_perm, IH. reflexivity.
Qed.

Lemma sortGroup_members (g : PaperGroup.t) :
  members (sortGroup g) ≡ₚ members g.
Proof. unfold members, sortGroup. cbn. rewrite sortSegments_perm. reflexivity. Qed.

Lemma allMembers_sortGroup (groups : list PaperGroup.t) :
  allMembers (sortGroup <$> groups) ≡ₚ allMembers groups.
Proof.
  unfold allMembers. induction groups as [|g groups IH]; [reflexivity |].
  rewrite !fmap_cons. cbn [concat]. rewrite sortGroup_members, IH.
  reflexivity.
Qed.

(** X13. The groups of the gallery have pairwise different keys, the
    keys under which they are rendered and expanded. *)
Theorem group_keys_distinct (toLowerCase : string -> string)
    (videos : list GalleryVideo.t) (searchQuery : string) :
  NoDup (PaperGroup.paper_arxiv_id <$> groupedVideos toLowerCase videos searchQuery).
Proof.
  unfold groupedVideos. rewrite <- list_fmap_compose.
  destruct (foldl_addVideo (List.filter (matchesQuery toLowerCase searchQuery) videos) [])
    as (H & _); [constructor | constructor |].
  exact H.
Qed.

(** X14. The groups partition the videos that pass the search filter,
    whatever lower-casing the filter applies: taken together the
    groups hold exactly those videos, each as many times as it is
    listed, and every video sits in the group of its own paper
    identifier, or of "unknown" when it has none. With an empty search
    text no video is left out. *)
Theorem groups_partition (toLowerCase : string -> string)
    (videos : list GalleryVideo.t) (searchQuery : string) :
  allMembers (groupedVideos toLowerCase videos searchQuery)
    ≡ₚ List.filter (matchesQuery toLowerCase searchQuery) videos /\
  Forall (fun g => Forall (fun v => keyOf v = PaperGroup.paper_arxiv_id g)
                     (members g))
    (groupedVideos toLowerCase videos searchQuery) /\
  allMembers (groupedVideos toLowerCase videos "") ≡ₚ videos.
Proof.
  assert (Hgen : forall q,
            allMembers (groupedVideos toLowerCase videos q)
              ≡ₚ List.filter (matchesQuery toLowerCase q) videos /\
            keyed (groupedVideos toLowerCase videos q)).
  { intros q. unfold groupedVideos.
    destruct (foldl_addVideo (List.filter (matchesQuery toLowerCase q) videos) [])
      as (_ & Hk & Hp); [constructor | constructor |].
    split.
    - rewrite allMembers_sortGroup, Hp. reflexivity.
    - unfold keyed in *. rewrite Forall_fmap.
      eapply Forall_impl; [exact Hk |]. intros g Hg.
      unfold compose. rewrite sortGroup_members. exact Hg. }
  destruct (Hgen searchQuery) as [H1 H2]. split; [exact H1 |].
  split; [exact H2 |].
  destruct (Hgen ""%string) as [H3 _]. rewrite H3.
  clear. induction videos as [|v videos IH]; cbn; [reflexivity |].
  rewrite IH. reflexivity.
Qed.

Lemma insertSegment_sorted (v : GalleryVideo.t) (l : list GalleryVideo.t) :
  StronglySorted byNumber l -> StronglySorted byNumber (insertSegment v l).
Proof.
  induction 1 as [|x l Hl IH Hx]; cbn.
  - repeat constructor.
  - destruct (N.leb_spec (segmentNumber v) (segmentNumber x)) as [Hle|Hgt].
    + constructor; [constructor; assumption |].
      constructor; [exact Hle |].
      eapply Forall_impl; [exact Hx |]. unfold byNumber. cbn. lia.
    + constructor; [exact IH |].
      rewrite (insertSegment_perm v l).
      constructor; [unfold byNumber; lia | exact Hx].
Qed.

Lemma sortSegments_sorted (l : list GalleryVideo.t) :
  StronglySorted byNumber (sortSegments l).
Proof.
  unfold sortSegments. induction l as [|v l IH]; cbn; [constructor |].
  apply insertSegment_sorted, IH.
Qed.

(** X15. In every group the segments are listed by ascending segment
    number, a segment without a number counting as number 0: each
    segment's number is at most that of every segment after it. *)
Theorem segments_sorted (toLowerCase : string -> string)
    (videos : list GalleryVideo.t) (searchQuery : string) :
  Forall (fun g => StronglySorted byNumber (PaperGroup.segments g))
    (groupedVideos toLowerCase videos searchQuery).
Proof.
  unfold groupedVideos. rewrite Forall_fmap. apply Forall_forall.
  intros g _. apply sortSegments_sorted.
Qed.

Lemma place_wellFormed (v : GalleryVideo.t) (g : PaperGroup.t) :
  (forall m, PaperGroup.full_video g = Some m ->
             m ∈ PaperGroup.full_videos g /\ isMainFullVideo m = true) ->
  wellFormed (place v g).
Proof.
  intros Hg. split.
  - intros H. pose proof (members_place v g) as Hp. rewrite H in Hp.
    apply Permutation_nil_cons in Hp. exact Hp.
  - unfold place. destruct (isFullIntroduction v); cbn.
    + destruct (PaperGroup.full_video g) as [main|] eqn:Hm.
      * intros m [= <-]. destruct (Hg main eq_refl) as [Hin Hmain].
        split; [apply elem_of_app; left; exact Hin | exact Hmain].
      * destruct (isMainFullVideo v) eqn:Hv; [| discriminate].
        intros m [= <-]. split; [| exact Hv].
        apply elem_of_app. right. constructor.
    + exact Hg.
Qed.

Lemma addVideo_wellFormed (groups : list PaperGroup.t) (v : GalleryVideo.t) :
  Forall wellFormed groups -> Forall wellFormed (addVideo groups v).
Proof.
  intros H. unfold addVideo. cbn zeta. rewrite Forall_fmap.
  assert (Hweak : Forall
            (fun g => PaperGroup.paper_arxiv_id g <> keyOf v -> wellFormed g)
            (if hasKey (keyOf v) groups then groups
             else groups ++ [newGroup v]) /\
          Forall
            (fun g => forall m, PaperGroup.full_video g = Some m ->
                m ∈ PaperGroup.full_videos g /\ isMainFullVideo m = true)
            (if hasKey (keyOf v) groups then groups
             else groups ++ [newGroup v])).
  { assert (H1 : Forall (fun g => PaperGroup.paper_arxiv_id g <> keyOf v ->
                                  wellFormed g) groups)
      by (eapply Forall_impl; [exact H | auto]).
    assert (H2 : Forall (fun g => forall m, PaperGroup.full_video g = Some m ->
                  m ∈ PaperGroup.full_videos g /\ isMainFullVideo m = true)
                   groups)
      by (eapply Forall_impl; [exact H | intros g [_ Hg]; exact Hg]).
    destruct (hasKey (keyOf v) groups); [auto |].
    split.
    - apply Forall_app. split; [exact H1 |].
      constructor; [| constructor]. cbn. congruence.
    - apply Forall_app. split; [exact H2 |].
      constructor; [| constructor]. cbn. discriminate. }
  destruct Hweak as [H1 H2].
  apply Forall_forall. intros g Hg. unfold compose.
  rewrite Forall_forall in H1, H2.
  destruct (String.eqb_spec (PaperGroup.paper_arxiv_id g) (keyOf v)).
  - apply place_wellFormed, H2, Hg.
  - apply H1; assumption.
Qed.

Lemma foldl_wellFormed (l : list GalleryVideo.t) :
  forall groups,
    Forall wellFormed groups -> Forall wellFormed (foldl addVideo groups l).
Proof.
  induction l as [|v l IH]; intros groups H; cbn; [exact H |].
  apply IH, addVideo_wellFormed, H.
Qed.

(** X16. No group of the gallery is empty, and the featured video of
    a group, when it has one, is one of the full videos of that group
    and one whose identifier marks it as the full introduction. *)
Theorem groups_wellFormed (toLowerCase : string -> string)
    (videos : list GalleryVideo.t) (searchQuery : string) :
  Forall wellFormed (groupedVideos toLowerCase videos searchQuery).
Proof.
  unfold groupedVideos. rewrite Forall_fmap.
  eapply Forall_impl; [apply foldl_wellFormed; constructor |].
  intros g [Hne Hmain]. unfold compose. split.
  - intros H. apply Hne. pose proof (sortGroup_members g) as Hp.
    rewrite H in Hp. symmetry in Hp.
    apply Permutation_nil_r in Hp. exact Hp.
  - exact Hmain.
Qed.

End GalleryFacts.

(** ** A finished job seen by the session of [handleSelectPaper] *)

Module SessionFacts.

Import ProcessingStep StageMapper Poll App.
Import StageMapperFacts PollFacts AppFacts RunFacts.
Local Open Scope list_scope.

(** One run of [poll] with [handleProgress] as the callback keeps
    [completedSeen]. *)
Lemma poll_completedSeen (pollInterval maxAttempts : Z)
    (getJobStatus : nat -> Fetch) (x : Session (list Step)) :
  promise x = None ->
  completedSeen x ->
  completedSeen (poll (Some progressCallback) pollInterval maxAttempts
                   getJobStatus x).
Proof.
  destruct x as [a ce c tm pr lg]. unfold completedSeen at 1.
  cbn [promise log]. intros -> Hold.
  unfold poll, onCatch, callProgress, settle, setTimeout, emit,
    progressCallback, returning, completedSeen.
  cbn [attempts consecutiveErrors caller timer promise log].
  destruct (getJobStatus (Datatypes.S a)) as [js'|err];
    cbn [attempts consecutiveErrors caller timer promise log].
  - destruct (JobStatus.status js') eqn:Hst;
      try destruct (maxAttempts <=? Z.of_nat (Datatypes.S a))%Z;
      cbn [attempts consecutiveErrors caller timer promise log];
      intros js Hin; rewrite ?in_app_iff in Hin; cbn [In] in Hin;
      repeat match goal with
             | H : _ \/ _ |- _ => destruct H
             | H : False |- _ => destruct H
             end;
      try discriminate;
      try match goal with
          | H : evProgress _ = evProgress _ |- _ => injection H as <-
          end;
      first [ congruence
            | apply Hold; assumption
            | intros Hc; exfalso; eapply Hold; eassumption
            | intros Hc; congruence ].
  - destruct (Datatypes.S ce <? maxConsecutiveErrors)%nat;
      cbn [attempts consecutiveErrors caller timer promise log];
      intros js Hin; rewrite ?in_app_iff in Hin; cbn [In] in Hin;
      repeat match goal with
             | H : _ \/ _ |- _ => destruct H
             | H : False |- _ => destruct H
             end;
      try discriminate;
      first [ apply Hold; assumption
            | intros Hc; exfalso; eapply Hold; eassumption ].
Qed.

Lemma runTimers_completedSeen (pollInterval maxAttempts : Z)
    (getJobStatus : nat -> Fetch) (fuel : nat) :
  forall x : Session (list Step),
    invariant getJobStatus x ->
    completedSeen x ->
    completedSeen (runTimers (Some progressCallback) pollInterval
                     maxAttempts getJobStatus fuel x).
Proof.
  induction fuel as [|fuel IH]; intros x Hinv Hx; cbn; [exact Hx |].
  destruct (timer x) as [d|] eqn:Ht; [| exact Hx].
  assert (Hp : promise x = None) by (eapply invariant_timer; eassumption).
  apply IH.
  - apply poll_invariant; assumption.
  - apply poll_completedSeen; assumption.
Qed.

Lemma session_completedSeen (getJobStatus : nat -> Fetch) (fuel : nat)
    (steps : list Step) :
  completedSeen (session getJobStatus fuel steps).
Proof.
  unfold session, pollJobUntilComplete.
  apply runTimers_completedSeen.
  - apply poll_invariant; [reflexivity | apply start_invariant].
  - apply poll_completedSeen; [reflexivity |].
    unfold completedSeen. cbn. intros js [].
Qed.

Lemma updateStep_ids (k : string) (st : Status) (d : option string)
    (steps : list Step) :
  id <$> updateStep k st d steps = id <$> steps.
Proof.
  unfold updateStep. rewrite <- list_fmap_compose. apply list_fmap_ext.
  intros i s _. cbn. unfold updateOne.
  destruct (String.eqb (id s) k); reflexivity.
Qed.

Lemma session_ids (getJobStatus : nat -> Fetch) (fuel : nat)
    (steps : list Step) :
  id <$> caller (session getJobStatus fuel steps) = id <$> steps.
Proof.
  unfold session.
  apply (pollJobUntilComplete_caller (fun st => id <$> st = id <$> steps)).
  - intros js st Hst. rewrite handleProgress_ids. exact Hst.
  - rewrite !updateStep_ids, <- list_fmap_compose.
    apply list_fmap_ext. intros i s _. reflexivity.
Qed.

(** C2. Whenever the session of [handleSelectPaper] gets a status
    record with lifecycle [completed], at whichever request, whatever
    the earlier records made of the steps and whatever the stage token
    of the record is, the promise resolves with that very record
    (result included), and [handleSelectPaper] ends with no error
    message and every step completed, the steps being the ones it
    started with, in the same order. *)
Theorem completed_snapshot_completes_all (job_id : string)
    (getJobStatus : nat -> Fetch) (fuel : nat) (steps : list Step)
    (js : JobStatus.t) :
  In (evProgress js) (log (session getJobStatus fuel steps)) ->
  JobStatus.status js = JobStatus.completed ->
  promise (session getJobStatus fuel steps) = Some (resolved js) /\
  snd (handleSelectPaper (inl job_id) getJobStatus fuel steps) = None /\
  Forall (fun s => status s = completed)
    (fst (handleSelectPaper (inl job_id) getJobStatus fuel steps)) /\
  id <$> fst (handleSelectPaper (inl job_id) getJobStatus fuel steps)
    = id <$> steps.
Proof.
  intros Hin Hst.
  pose proof (session_completedSeen getJobStatus fuel steps) as Hseen.
  pose proof (session_ids getJobStatus fuel steps) as Hids.
  assert (Hpr : promise (session getJobStatus fuel steps)
                = Some (resolved js)).
  { unfold completedSeen in Hseen.
    destruct (promise (session getJobStatus fuel steps)) as [o|].
    - rewrite (Hseen js Hin Hst). reflexivity.
    - exfalso. exact (Hseen js Hin Hst). }
  split; [exact Hpr |].
  unfold handleSelectPaper. fold (session getJobStatus fuel steps).
  rewrite Hpr. cbn [fst snd afterPoll].
  split; [reflexivity |]. split; [apply markAllCompleted_all |].
  rewrite markAllCompleted_ids. exact Hids.
Qed.

(** C2, on a job reported finished at the third request with a stale
    stage token. *)
Lemma completed_snapshot_completes_all_witness :
  promise (session Samples.doneAtThird 5 initialSteps)
    = Some (resolved Samples.jobDone) /\
  snd (handleSelectPaper (inl "job-1"%string) Samples.doneAtThird 5
         initialSteps) = None /\
  Forall (fun s => status s = completed)
    (fst (handleSelectPaper (inl "job-1"%string) Samples.doneAtThird 5
            initialSteps)) /\
  id <$> fst (handleSelectPaper (inl "job-1"%string) Samples.doneAtThird 5
                initialSteps)
    = id <$> initialSteps.
Proof.
  apply (completed_snapshot_completes_all "job-1" Samples.doneAtThird 5
           initialSteps Samples.jobDone).
  - vm_compute. tauto.
  - reflexivity.
Defined.

End SessionFacts.
